(** * metafmt: a front-end that pipes a file through external formatters

    Shallow embedding of [metafmt.go] (and of the older revision of the same
    program, kept apart in [Module Part001]) together with the properties
    of its registry, its chain executor and its dispatch layer. *)

From Stdlib Require Import Strings.Ascii Strings.String Strings.Byte.
From stdpp Require Import gmap strings list fin_maps.

Open Scope string_scope.
Open Scope list_scope.
Set Warnings "-register-all".

(** ** Formatters *)

(** [type formatter struct { Commands; EmacsMajorModes; Extensions }] *)
Record formatter := Formatter {
  Commands : list (list string);
  EmacsMajorModes : list string;
  Extensions : list string;
}.

#[global] Instance formatter_eq_dec : EqDecision formatter.
Proof. solve_decision. Defined.

Definition fmt_c : formatter :=
  {| Commands := [["clang-format"; "-style=WebKit"; "-"]];
     EmacsMajorModes := ["c-mode"; "c++-mode"];
     Extensions := [".c"; ".cpp"; ".cxx"; ".h"; ".hpp"; ".hxx"] |}.

Definition fmt_css : formatter :=
  {| Commands := [["cssbeautify-bin"; "--autosemicolon"; "-f"; "-"]];
     EmacsMajorModes := ["css-mode"];
     Extensions := [".css"] |}.

Definition fmt_go : formatter :=
  {| Commands := [["goimports"]];
     EmacsMajorModes := ["go-mode"];
     Extensions := [".go"] |}.

Definition fmt_js : formatter :=
  {| Commands := [["semistandard-format"; "-"]];
     EmacsMajorModes := ["js-mode"; "js2-mode"; "js3-mode"];
     Extensions := [".js"; ".jsx"] |}.

Definition fmt_json : formatter :=
  {| Commands := [["jsonlint"; "-"]];
     EmacsMajorModes := ["json-mode"];
     Extensions := [".json"] |}.

Definition fmt_python : formatter :=
  {| Commands := [["autopep8"; "--max-line-length=98"; "-"];
                  ["isort"; "--line-width"; "98"; "--multi_line"; "3"; "-"]];
     EmacsMajorModes := ["python-mode"];
     Extensions := [".py"] |}.

Definition fmt_sass : formatter :=
  {| Commands := [["sass-convert"; "--no-cache"; "--from"; "sass"; "--to"; "sass";
                   "--indent"; "4"; "--stdin"]];
     EmacsMajorModes := ["sass-mode"];
     Extensions := [".sass"] |}.

Definition fmt_scss : formatter :=
  {| Commands := [["sass-convert"; "--no-cache"; "--from"; "scss"; "--to"; "scss";
                   "--indent"; "4"; "--stdin"]];
     EmacsMajorModes := ["scss-mode"];
     Extensions := [".scss"] |}.

(** [var formatters = []*formatter{ ... }], in the order of the source. *)
Definition formatters : list formatter :=
  [fmt_c; fmt_css; fmt_go; fmt_js; fmt_json; fmt_python; fmt_sass; fmt_scss].

(** ** Lookup maps *)

(** [type lookupMap map[string]*formatter] *)
Abbreviation lookupMap := (gmap string formatter).

(** The inner loops of [init]: [m[key] = formatter] for every key, in order. *)
Definition register (f : formatter) (keys : list string) (m : lookupMap) : lookupMap :=
  fold_left (fun acc key => <[key := f]> acc) keys m.

(** [func init()], over an arbitrary formatter list: the pair
    (emacsToFormatter, extToFormatter) after the outer loop. *)
Definition init (fs : list formatter) : lookupMap * lookupMap :=
  fold_left
    (fun maps f =>
       let ext := register f (Extensions f) maps.2 in
       let em := register f (EmacsMajorModes f) maps.1 in
       (em, ext))
    fs (∅, ∅).

Definition emacsToFormatter : lookupMap := (init formatters).1.
Definition extToFormatter : lookupMap := (init formatters).2.

(** ** path/filepath.Ext

    Go's standard library function, on a system whose path separator is
    [/]: scan from the last byte towards the first, stop at a separator,
    and return [path[i:]] at the first dot met. [scan_ext rev_prefix suffix]
    is the loop with [rev_prefix] the bytes [path[..i]] still to visit
    (nearest first) and [suffix = path[i+1:]]. *)
Definition is_dot (c : ascii) : bool := Ascii.eqb c "."%char.
Definition IsPathSeparator (c : ascii) : bool := Ascii.eqb c "/"%char.

Fixpoint scan_ext (rev_prefix suffix : list ascii) : list ascii :=
  match rev_prefix with
  | [] => []
  | c :: rest =>
      if IsPathSeparator c then []
      else if is_dot c then c :: suffix
      else scan_ext rest (c :: suffix)
  end.

Definition filepath_Ext (path : string) : string :=
  string_of_list_ascii (scan_ext (rev (list_ascii_of_string path)) []).

(** [func formatterForPath(path string) *formatter]; [nil] is [None]. *)
Definition formatterForPath (path : string) : option formatter :=
  let ext := filepath_Ext path in
  if decide (ext = "") then None
  else match extToFormatter !! ext with
       | Some fmt => Some fmt
       | None => None
       end.

(** [func formatterForEmacs() *formatter]; the flag [*emacs] is the argument. *)
Definition formatterForEmacs (emacs : string) : option formatter :=
  if decide (emacs = "") then None
  else match emacsToFormatter !! emacs with
       | Some formatter => Some formatter
       | None => None
       end.


(** ** The world the program runs in *)

Abbreviation bytes := (list byte).

(** Go [error] values the program can meet. *)
Inductive error :=
| ErrString (msg : string)            (* errors.New(msg), or a logged message *)
| PathError (op path msg : string)    (* *os.PathError *)
| ExitError (status : nat)            (* *exec.ExitError: non-zero exit *)
| ExecError (name : string).          (* *exec.Error: program not found *)

(** What the program does to its environment, in order. *)
Inductive event :=
| EvOpen (path : string) (rw : bool)
| EvSpawn (command : list string)
| EvTruncate (path : string)
| EvSeek (path : string)
| EvWrite (path : string) (data : bytes).

(** A directory entry as [os.Lstat] and [readDirNames] report it. *)
Inductive dirent :=
| DFile (name : string)
| DDir (name : string) (entries : list dirent).

Record World := mkWorld {
  files : gmap string bytes;      (* on-disk bytes of every regular file *)
  tree : gmap string dirent;      (* what Lstat finds at a path *)
  stdin : bytes;                  (* bytes not yet read from standard input *)
  stdout : bytes;                 (* bytes written to standard output so far
                                     (a stream of its own, not one of [files]) *)
  trace : list event;
}.

Definition log_event (ev : event) (w : World) : World :=
  mkWorld (files w) (tree w) (stdin w) (stdout w) (trace w ++ [ev]).
Definition set_files (fs : gmap string bytes) (w : World) : World :=
  mkWorld fs (tree w) (stdin w) (stdout w) (trace w).
Definition set_stdin (b : bytes) (w : World) : World :=
  mkWorld (files w) (tree w) b (stdout w) (trace w).
Definition set_stdout (b : bytes) (w : World) : World :=
  mkWorld (files w) (tree w) (stdin w) b (trace w).

(** The external formatter programs: what a command prints on its
    standard output when fed [input], and the error [cmd.Run] reports
    ([None] for exit status zero). The flags are part of the environment. *)
Record Env := mkEnv {
  exec_run : list string -> bytes -> bytes * option error;
  emacs : string;    (* flag.String("emacs", "", ...) *)
  write : bool;      (* flag.Bool("write", false, ...) *)
}.

(** ** A state monad with abrupt termination

    [Fatal] is [log.Fatalln] (the process exits), [Panic] a run-time panic. *)
Inductive abort :=
| Fatal (e : error)
| Panic (msg : string).

Inductive res (A : Type) :=
| Done (a : A)
| Abort (x : abort).
Arguments Done {A} a.
Arguments Abort {A} x.

Definition M (A : Type) : Type := World -> res A * World.

Definition ret {A} (a : A) : M A := fun w => (Done a, w).
Definition bind {A B} (m : M A) (k : A -> M B) : M B :=
  fun w => match m w with
           | (Done a, w') => k a w'
           | (Abort x, w') => (Abort x, w')
           end.
Definition lift {A} (f : World -> A * World) : M A :=
  fun w => let '(a, w') := f w in (Done a, w').
Definition panic {A} (msg : string) : M A := fun w => (Abort (Panic msg), w).
Definition log_Fatalln {A} (e : error) : M A := fun w => (Abort (Fatal e), w).

Declare Scope go_scope.
Delimit Scope go_scope with go.
Notation "'let*' p ':=' m 'in' k" := (bind m (fun p => k))
  (at level 10, p pattern, m at level 100, k at level 200) : go_scope.
Open Scope go_scope.

(** ** io.Reader and io.Writer

    [ReadAll] is what a consumer that reads to end of file obtains;
    [Write] is one [Write] call. Both return the updated receiver. *)
Class Reader (Src : Type) := ReadAll : Src -> World -> (Src * bytes) * World.
Class Writer (Dst : Type) := Write : Dst -> bytes -> World -> (Dst * option error) * World.

(** [bytes.Buffer]: the unread bytes. *)
Definition Buffer := bytes.
Definition Buffer_Reset (b : Buffer) : Buffer := [].

#[global] Instance Buffer_Reader : Reader Buffer :=
  fun b w => (([], b), w).
#[global] Instance Buffer_Writer : Writer Buffer :=
  fun b p w => ((b ++ p, None), w).

(** [*os.File]: the standard streams, or a named file opened read-only or
    read-write with its current offset. *)
Inductive File :=
| Stdin
| Stdout
| Opened (name : string) (rw : bool) (offset : nat).

Definition content (w : World) (name : string) : bytes :=
  default [] (files w !! name).

(** Bytes of a file after [data] is written at [off] (a gap is zero-filled). *)
Definition write_at (off : nat) (data old : bytes) : bytes :=
  take off old ++ replicate (off - length old) x00 ++ data
    ++ drop (off + length data) old.

(** Bytes of a file after it is resized to [size]. *)
Definition resize (size : nat) (old : bytes) : bytes :=
  take size old ++ replicate (size - length old) x00.

Definition EBADF (op : string) (f : File) : error :=
  PathError op (match f with Stdin => "/dev/stdin" | Stdout => "/dev/stdout"
                        | Opened name _ _ => name end) "bad file descriptor".

#[global] Instance File_Reader : Reader File :=
  fun f w =>
    match f with
    | Stdin => ((Stdin, stdin w), set_stdin [] w)
    | Stdout => ((Stdout, []), w)
    | Opened name rw off =>
        ((Opened name rw (off `max` length (content w name)),
          drop off (content w name)), w)
    end.

#[global] Instance File_Writer : Writer File :=
  fun f p w =>
    match f with
    | Stdin => ((Stdin, Some (EBADF "write" f)), w)
    | Stdout => ((Stdout, None), set_stdout (stdout w ++ p) w)
    | Opened name rw off =>
        if rw then
          ((Opened name rw (off + length p), None),
           log_event (EvWrite name p)
             (set_files (<[name := write_at off p (content w name)]> (files w)) w))
        else ((f, Some (EBADF "write" f)), w)
    end.

(** [os.Open] / [os.OpenFile(path, os.O_RDWR, 0)]: no file is created. *)
Definition os_OpenFile (path : string) (rw : bool) : M (option File * option error) :=
  fun w =>
    let w' := log_event (EvOpen path rw) w in
    match files w !! path with
    | Some _ => (Done (Some (Opened path rw 0), None), w')
    | None => (Done (None, Some (PathError "open" path "no such file or directory")), w')
    end.
Definition os_Open (path : string) := os_OpenFile path false.

(** [file.Truncate(size)] *)
Definition File_Truncate (f : File) (size : nat) : M (option error) :=
  fun w =>
    match f with
    | Opened name true _ =>
        (Done None,
         log_event (EvTruncate name)
           (set_files (<[name := resize size (content w name)]> (files w)) w))
    | _ => (Done (Some (EBADF "truncate" f)), w)
    end.

(** [file.Seek(offset, os.SEEK_SET)] *)
Definition File_Seek (f : File) (offset : nat) : M (File * option error) :=
  fun w =>
    match f with
    | Opened name rw _ => (Done (Opened name rw offset, None), log_event (EvSeek name) w)
    | _ => (Done (f, Some (PathError "seek" "" "illegal seek")), w)
    end.

(** [io.Copy(dst, &buf)] with a [bytes.Buffer] source, that is
    [buf.WriteTo(dst)]: one [Write] of everything unread when there is
    something to write, and the buffer is left empty. *)
Definition io_Copy {Dst} `{Writer Dst} (dst : Dst) (buf : Buffer) : M (Dst * Buffer * option error) :=
  match buf with
  | [] => ret (dst, Buffer_Reset buf, None)
  | _ => let* (dst', err) := lift (Write dst buf) in ret (dst', Buffer_Reset buf, err)
  end.

(** ** Low level operations *)

(** [cmd.Run()] for [exec.Command(name, args...)] with [cmd.Stdin = src] and
    [cmd.Stdout = dst]: the program consumes its input, what it prints is
    written to [dst], and its failure (if any) is reported. *)
Definition cmd_Run {Dst Src} `{Writer Dst} `{Reader Src} (env : Env)
    (name : string) (args : list string) (dst : Dst) (src : Src) : M (Dst * Src * option error) :=
  let* (src', input) := lift (ReadAll src) in
  let* _ := lift (fun w => (tt, log_event (EvSpawn (name :: args)) w)) in
  let (out, perr) := exec_run env (name :: args) input in
  let* (dst', werr) := lift (Write dst out) in
  ret (dst', src', match perr with Some e => Some e | None => werr end).

Definition index_out_of_range : string := "index out of range [0] with length 0".

(** [func format(dst io.Writer, src io.Reader, command []string) error];
    [command[0]] on an empty command is an index out of range. *)
Definition format {Dst Src} `{Writer Dst} `{Reader Src} (env : Env)
    (dst : Dst) (src : Src) (command : list string) : M (Dst * Src * option error) :=
  match command with
  | [] => panic index_out_of_range
  | name :: args =>
      let* (dst, src, err) := cmd_Run env name args dst src in
      match err with
      | Some e => ret (dst, src, Some e)
      | None => ret (dst, src, None)
      end
  end.

(** The [for i, command := range commandChain] loop of [formatChain], from
    index [i] on, over the two local buffers. *)
Fixpoint formatChain_loop {Src} `{Reader Src} (env : Env) (i : nat)
    (commandChain : list (list string)) (buf tmp : Buffer) (src : Src)
    : M (Buffer * Buffer * Src * option error) :=
  match commandChain with
  | [] => ret (buf, tmp, src, None)
  | command :: rest =>
      match i with
      | 0 =>
          (* stepSrc = src *)
          let* (buf, src, err) := format env buf src command in
          match err with
          | Some e => ret (buf, tmp, src, Some e)
          | None => formatChain_loop env (S i) rest buf tmp src
          end
      | _ =>
          let tmp := Buffer_Reset tmp in
          let* (tmp, buf, cerr) := io_Copy tmp buf in
          match cerr with
          | Some e => ret (buf, tmp, src, Some e)
          | None =>
              let buf := Buffer_Reset buf in
              (* stepSrc = &tmp *)
              let* (buf, tmp, err) := format env buf tmp command in
              match err with
              | Some e => ret (buf, tmp, src, Some e)
              | None => formatChain_loop env (S i) rest buf tmp src
              end
          end
      end
  end.

(** [func formatChain(dst io.Writer, src io.Reader, commandChain [][]string) error] *)
Definition formatChain {Dst Src} `{Writer Dst} `{Reader Src} (env : Env)
    (dst : Dst) (src : Src) (commandChain : list (list string)) : M (Dst * Src * option error) :=
  let* (buf, tmp, src, err) := formatChain_loop env 0 commandChain [] [] src in
  match err with
  | Some e => ret (dst, src, Some e)
  | None =>
      let* (dst, buf, err) := io_Copy dst buf in
      ret (dst, src, err)
  end.

(** [func formatWrite(path string, formatter *formatter) error] *)
Definition formatWrite (env : Env) (path : string) (formatter : formatter) : M (option error) :=
  let* (file, err) := os_OpenFile path true in
  match file, err with
  | Some file, None =>
      let buf : Buffer := [] in
      let* (buf, file, err) := formatChain env buf file (Commands formatter) in
      match err with
      | Some e => ret (Some e)
      | None =>
          let* err := File_Truncate file 0 in
          match err with
          | Some e => ret (Some e)
          | None =>
              let* (file, err) := File_Seek file 0 in
              match err with
              | Some e => ret (Some e)
              | None =>
                  let* (file, buf, err) := io_Copy file buf in
                  ret err
              end
          end
      end
  | _, Some e => ret (Some e)
  | None, None => ret None
  end.

(** [func formatStdout(path string, formatter *formatter) error] *)
Definition formatStdout (env : Env) (path : string) (formatter : formatter) : M (option error) :=
  let* (file, err) := os_Open path in
  match file, err with
  | Some file, None =>
      let* (_, _, err) := formatChain env Stdout file (Commands formatter) in
      ret err
  | _, Some e => ret (Some e)
  | None, None => ret None
  end.

(** ** High level operations *)

(** [type formatOp func(string, *formatter) error] *)
Definition formatOp := string -> formatter -> M (option error).

(** [func formatFile(path string, op formatOp)] *)
Definition formatFile (path : string) (op : formatOp) : M unit :=
  match formatterForPath path with
  | None => ret tt
  | Some formatter =>
      let* err := op path formatter in
      match err with
      | Some e => log_Fatalln e
      | None => ret tt
      end
  end.

(** [func formatStdin()] *)
Definition formatStdin (env : Env) : M unit :=
  match formatterForEmacs (emacs env) with
  | None => log_Fatalln (ErrString "Must be given an Emacs major mode")
  | Some formatter =>
      let* (_, _, err) := formatChain env Stdout Stdin (Commands formatter) in
      match err with
      | Some e => log_Fatalln e
      | None => ret tt
      end
  end.

(** *** The directory walk *)

Definition IgnoreDirs : list string := [".git"; ".hg"; ".svn"; "node_modules"].

(** [dry.StringListContains] *)
Definition StringListContains (l : list string) (s : string) : bool :=
  bool_decide (s ∈ l).

Definition IsDir (info : dirent) : bool :=
  match info with DFile _ => false | DDir _ _ => true end.
Definition Name (info : dirent) : string :=
  match info with DFile name => name | DDir name _ => name end.

(** [filepath.Join] of a clean directory path and an entry name. *)
Definition filepath_Join (dir name : string) : string := dir +:+ "/" +:+ name.

(** What a [filepath.WalkFunc] returns besides [nil]. *)
Inductive walk_error :=
| SkipDir
| WalkError (e : error).

Definition WalkFunc := string -> option dirent -> M (option walk_error).

(** [filepath.walk]: the callback on the entry itself, then on the entries
    of a directory in the order [readDirNames] lists them; [SkipDir] from a
    directory skips its entries only. *)
Fixpoint walk (walkFn : WalkFunc) (path : string) (info : dirent) {struct info}
    : M (option walk_error) :=
  match info with
  | DFile _ => walkFn path (Some info)
  | DDir _ entries =>
      let* err1 := walkFn path (Some info) in
      match err1 with
      | Some e => ret (Some e)
      | None =>
          (fix walk_names (names : list dirent) : M (option walk_error) :=
             match names with
             | [] => ret None
             | entry :: names' =>
                 let* err := walk walkFn (filepath_Join path (Name entry)) entry in
                 match err with
                 | Some SkipDir =>
                     if IsDir entry then walk_names names' else ret (Some SkipDir)
                 | Some e => ret (Some e)
                 | None => walk_names names'
                 end
             end) entries
      end
  end.

(** [filepath.Walk(root, fn)] *)
Definition filepath_Walk (root : string) (fn : WalkFunc) : M (option error) :=
  let* info := lift (fun w => (tree w !! root, w)) in
  let* err := match info with
              | None => fn root None
              | Some info => walk fn root info
              end in
  match err with
  | Some (WalkError e) => ret (Some e)
  | _ => ret None
  end.

(** [dry.FileIsDir] *)
Definition FileIsDir (path : string) : M bool :=
  lift (fun w => (match tree w !! path with Some info => IsDir info | None => false end, w)).

(** [func formatDir(path string, op formatOp)] *)
Definition formatDir (path : string) (op : formatOp) : M unit :=
  let* _ := filepath_Walk path (fun path info =>
    match info with
    | None => panic "invalid memory address or nil pointer dereference"
    | Some info =>
        if IsDir info && StringListContains IgnoreDirs (Name info) then ret (Some SkipDir)
        else
          let* _ := (if negb (IsDir info) then formatFile path op else ret tt) in
          ret None
    end) in
  ret tt.

(** ** Entry point *)

(** [for _, x := range l { body(x) }] *)
Fixpoint for_range {A} (l : list A) (body : A -> M unit) : M unit :=
  match l with
  | [] => ret tt
  | x :: l' => let* _ := body x in for_range l' body
  end.

(** What [main] of [metafmt.go] does with one path argument. *)
Definition dispatch (op : formatOp) (path : string) : M unit :=
  let* isdir := FileIsDir path in
  if isdir then formatDir path op else formatFile path op.

(** [func main()], after [flag.Parse()], with [args = flag.Args()]. *)
Definition main (env : Env) (args : list string) : M unit :=
  if bool_decide (length args < 1) then ret tt
  else if bool_decide (length args = 1) && bool_decide (args !! 0 = Some "-")
  then formatStdin env
  else
    let op : formatOp := if write env then formatWrite env else formatStdout env in
    for_range args (dispatch op).

(** ** The older revision of the program

    Same registry and low level operations; [formatStdin] returns its
    error and [main] has the dispatch inline. *)
Module Part001.

(** [func formatStdin() error] *)
Definition formatStdin (env : Env) : M (option error) :=
  match formatterForEmacs (emacs env) with
  | None => ret (Some (ErrString "Must be given an Emacs major mode"))
  | Some formatter =>
      let* (_, _, err) := formatChain env Stdout Stdin (Commands formatter) in
      ret err
  end.

(** [func main()]: the loop ranges over [args[1:]]. *)
Definition main (env : Env) (args : list string) : M unit :=
  if bool_decide (length args < 1) then ret tt
  else if bool_decide (length args = 1) && bool_decide (args !! 0 = Some "-")
  then
    let* err := formatStdin env in
    match err with
    | Some e => log_Fatalln e
    | None => ret tt
    end
  else
    let formatterFunc : formatOp := if write env then formatWrite env else formatStdout env in
    for_range (drop 1 args) (fun path =>
      match formatterForPath path with
      | None => ret tt
      | Some formatter =>
          let* err := formatterFunc path formatter in
          match err with
          | Some e => log_Fatalln e
          | None => ret tt
          end
      end).

End Part001.

(** * Notions the properties are stated with *)

(** A string with neither a dot nor a path separator in it. *)
Definition plain (body : string) : bool :=
  forallb (fun c => negb (is_dot c) && negb (IsPathSeparator c))
          (list_ascii_of_string body).

(** The extension as the specification words it: the substring from the
    last dot of the whole path to its end, dot included; empty when the
    path has no dot. *)
Fixpoint spec_extension (path : string) : string :=
  match path with
  | EmptyString => ""
  | String c rest =>
      match spec_extension rest with
      | EmptyString => if is_dot c then path else ""
      | e => e
      end
  end.

Fixpoint has_dot (s : string) : bool :=
  match s with
  | EmptyString => false
  | String c rest => is_dot c || has_dot rest
  end.

(** The final element of a path: what follows its last separator, the
    whole path when it has none. *)
Fixpoint has_separator (s : string) : bool :=
  match s with
  | EmptyString => false
  | String c rest => IsPathSeparator c || has_separator rest
  end.

Fixpoint final_element (path : string) : string :=
  match path with
  | EmptyString => ""
  | String c rest =>
      if has_separator rest then final_element rest
      else if IsPathSeparator c then rest else path
  end.

(** Resolution by extension as the specification words it. *)
Definition spec_resolve (path : string) : option formatter :=
  if decide (spec_extension path = "") then None
  else extToFormatter !! spec_extension path.

(** A registered extension is well formed when it is a dot followed by
    plain bytes and the extension map sends it to the formatter that
    registers it. *)
Definition well_formed_extension (f : formatter) (ext : string) : bool :=
  bool_decide (extToFormatter !! ext = Some f)
  && match ext with
     | String c body => is_dot c && plain body
     | EmptyString => false
     end.

(** A command with a program name. *)
Definition has_program (command : list string) : bool :=
  match command with [] => false | _ :: _ => true end.

(** The message of the unresolved mode. *)
Definition no_mode : error := ErrString "Must be given an Emacs major mode".

(** The Process Runner as a function of the bytes it is fed: what [format]
    leaves in a fresh buffer, the error it returns, or its panic. *)
Inductive run_result :=
| RunOk (out : bytes)
| RunErr (e : error)
| RunPanic.

Definition run (env : Env) (command : list string) (input : bytes) : run_result :=
  match command with
  | [] => RunPanic
  | _ => match exec_run env command input with
         | (out, None) => RunOk out
         | (_, Some e) => RunErr e
         end
  end.

(** Left-to-right composition of the Process Runner over a chain. *)
Fixpoint compose (env : Env) (chain : list (list string)) (input : bytes) : run_result :=
  match chain with
  | [] => RunOk input
  | command :: rest =>
      match run env command input with
      | RunOk out => compose env rest out
      | r => r
      end
  end.

(** The commands of a chain that get to run: all of them, or those up to
    and including the first that fails. *)
Fixpoint executed (env : Env) (chain : list (list string)) (input : bytes)
    : list (list string) :=
  match chain with
  | [] => []
  | command :: rest =>
      match run env command input with
      | RunOk out => command :: executed env rest out
      | RunErr _ => [command]
      | RunPanic => []
      end
  end.

(** What a chain produces from the bytes of its source: nothing when the
    chain is empty (the source is not even read). *)
Definition chain_output (env : Env) (chain : list (list string)) (input : bytes)
    : run_result :=
  match chain with
  | [] => RunOk []
  | _ => compose env chain input
  end.

Definition log_all (evs : list event) (w : World) : World :=
  mkWorld (files w) (tree w) (stdin w) (stdout w) (trace w ++ evs).

(** Handing the bytes [out] of the chain to the destination: the closing
    [io.Copy(dst, &buf)] of [formatChain], with the source as it was left. *)
Definition deliver {Dst Src} `{Writer Dst} (dst : Dst) (src : Src) (out : bytes)
    : M (Dst * Src * option error) :=
  let* (dst', _, err) := io_Copy dst out in
  ret (dst', src, err).

(** ** A small environment to run the program in

    Every program succeeds and appends its name in angle brackets to what
    it reads, except [false], which prints a few bytes and exits with
    status 1. *)
Definition demo_run (command : list string) (input : bytes) : bytes * option error :=
  match command with
  | [] => ([], Some (ExecError ""))
  | name :: _ =>
      if decide (name = "false") then (list_byte_of_string "oops", Some (ExitError 1))
      else (input ++ list_byte_of_string ("<" +:+ name +:+ ">"), None)
  end.

Definition demo_env (write : bool) : Env := mkEnv demo_run "" write.

Definition demo_world : World :=
  mkWorld (<["a.py" := list_byte_of_string "x=1"]>
           (<["b.json" := list_byte_of_string "{}"]> ∅))
          ∅ (list_byte_of_string "input") [] [].

Definition demo_input : bytes := list_byte_of_string "x=1".

(** A formatter whose second command fails. *)
Definition fmt_failing : formatter :=
  {| Commands := [["first"]; ["false"]; ["third"]];
     EmacsMajorModes := []; Extensions := [] |}.

(** ** Notions for the rest of the program *)

(** The last formatter of a list that registers key [k] under [keys]. *)
Definition last_registering (keys : formatter -> list string)
    (fs : list formatter) (k : string) : option formatter :=
  last (filter (fun f => k ∈ keys f) fs).

(** A registered mode is well formed when it is not empty and the mode map
    sends it to the formatter that registers it. *)
Definition well_formed_mode (f : formatter) (mode : string) : bool :=
  bool_decide (emacsToFormatter !! mode = Some f) && negb (bool_decide (mode = "")).

(** A formatter with at least one command. *)
Definition has_commands (f : formatter) : bool :=
  match Commands f with [] => false | _ :: _ => true end.



(** The operation [main] selects from the flag. *)
Definition selected_op (env : Env) : formatOp :=
  if write env then formatWrite env else formatStdout env.

(** The world after [formatWrite] has replaced the bytes of [path] by [B],
    having spawned the commands of [chain]. *)
Definition written (path : string) (chain : list (list string)) (B : bytes)
    (w : World) : World :=
  mkWorld (<[path := B]> (files w)) (tree w) (stdin w) (stdout w)
          (trace w ++ EvOpen path true :: map EvSpawn chain
             ++ [EvTruncate path; EvSeek path]
             ++ match B with [] => [] | _ => [EvWrite path B] end).

(** The world after [formatStdout] has printed [B]. *)
Definition printed (path : string) (chain : list (list string)) (B : bytes)
    (w : World) : World :=
  mkWorld (files w) (tree w) (stdin w) (stdout w ++ B)
          (trace w ++ EvOpen path false :: map EvSpawn chain).


(** * Properties *)

Example ext_py : filepath_Ext "src/main.py" = ".py".
Proof. reflexivity. Qed.
Example ext_dir : filepath_Ext "a.b/c" = "".
Proof. reflexivity. Qed.
Example for_py : formatterForPath "src/main.py" = Some fmt_python.
Proof. vm_compute. reflexivity. Qed.
Example for_emacs : formatterForEmacs "js2-mode" = Some fmt_js.
Proof. vm_compute. reflexivity. Qed.
Example ext_hidden : filepath_Ext "dir/.profile" = ".profile".
Proof. reflexivity. Qed.
Example spec_ext_last : spec_extension "archive.tar.gz" = ".gz".
Proof. reflexivity. Qed.
Example spec_ext_none : spec_extension "Makefile" = "".
Proof. reflexivity. Qed.
Example final_element_file : final_element "a.b/c.d" = "c.d".
Proof. reflexivity. Qed.
Example final_element_slash : final_element "a.b/" = "".
Proof. reflexivity. Qed.
Example compose_order :
  compose (demo_env false) [["p"]; ["q"]] demo_input
  = RunOk (list_byte_of_string "x=1<p><q>").
Proof. vm_compute. reflexivity. Qed.
Example stdin_python :
  formatStdin (mkEnv demo_run "python-mode" false) demo_world
  = (Done (),
     mkWorld (files demo_world) (tree demo_world) []
       (list_byte_of_string "input<autopep8><isort>")
       [EvSpawn ["autopep8"; "--max-line-length=98"; "-"];
        EvSpawn ["isort"; "--line-width"; "98"; "--multi_line"; "3"; "-"]]).
Proof. vm_compute. reflexivity. Qed.

(** ** How the low level operations compute *)

Lemma cmd_Run_eq {Dst Src} `{Writer Dst} `{Reader Src} env name args
    (dst : Dst) (src : Src) w :
  cmd_Run env name args dst src w =
  let '((src', input), w1) := ReadAll src w in
  let '(out, perr) := exec_run env (name :: args) input in
  let '((dst', werr), w2) := Write dst out (log_event (EvSpawn (name :: args)) w1) in
  (Done (dst', src', match perr with Some e => Some e | None => werr end), w2).
Proof.
  unfold cmd_Run, bind, lift, ret.
  destruct (ReadAll src w) as [[src' input] w1]. simpl.
  destruct (exec_run env (name :: args) input) as [out perr]. simpl.
  by destruct (Write dst out _) as [[dst' werr] w2].
Qed.

Lemma format_eq {Dst Src} `{Writer Dst} `{Reader Src} env name args
    (dst : Dst) (src : Src) w :
  format env dst src (name :: args) w =
  let '((src', input), w1) := ReadAll src w in
  let '(out, perr) := exec_run env (name :: args) input in
  let '((dst', werr), w2) := Write dst out (log_event (EvSpawn (name :: args)) w1) in
  (Done (dst', src', match perr with Some e => Some e | None => werr end), w2).
Proof.
  unfold format, bind. rewrite cmd_Run_eq.
  destruct (ReadAll src w) as [[src' input] w1].
  destruct (exec_run env (name :: args) input) as [out perr].
  destruct (Write dst out _) as [[dst' werr] w2].
  by destruct perr, werr.
Qed.

(** ** The registry *)

Section Registry.

Lemma register_lookup f keys (m : lookupMap) k :
  register f keys m !! k = if bool_decide (k ∈ keys) then Some f else m !! k.
Proof.
  unfold register. revert m. induction keys as [|a keys IH]; intros m; simpl.
  - done.
  - rewrite IH. destruct (decide (k = a)) as [->|Hne].
    + rewrite lookup_insert_eq.
      rewrite (bool_decide_eq_true_2 (a ∈ a :: keys)) by apply list_elem_of_here.
      by case_bool_decide.
    + rewrite lookup_insert_ne by done.
      rewrite (bool_decide_ext (k ∈ a :: keys) (k ∈ keys)); [done|].
      rewrite elem_of_cons. tauto.
Qed.

Lemma init_snoc fs f :
  init (fs ++ [f]) =
  (register f (EmacsMajorModes f) (init fs).1,
   register f (Extensions f) (init fs).2).
Proof. unfold init. by rewrite fold_left_app. Qed.

(** Registration is last-write-wins. *)
Lemma ext_lookup_snoc fs f k :
  (init (fs ++ [f])).2 !! k =
  if bool_decide (k ∈ Extensions f) then Some f else (init fs).2 !! k.
Proof. rewrite init_snoc. simpl. apply register_lookup. Qed.

Lemma emacs_lookup_snoc fs f k :
  (init (fs ++ [f])).1 !! k =
  if bool_decide (k ∈ EmacsMajorModes f) then Some f else (init fs).1 !! k.
Proof. rewrite init_snoc. simpl. apply register_lookup. Qed.

(** Every entry of the extension map comes from the formatter list. *)
Lemma ext_lookup_sound fs k f :
  (init fs).2 !! k = Some f → f ∈ fs ∧ k ∈ Extensions f.
Proof.
  induction fs as [|g fs IH] using rev_ind.
  - unfold init; simpl. by rewrite lookup_empty.
  - rewrite ext_lookup_snoc. case_bool_decide as Hk.
    + intros [= <-]. split; [|done]. apply elem_of_app. right. apply list_elem_of_here.
    + intros Hl. destruct (IH Hl). split; [|done]. apply elem_of_app. by left.
Qed.

Lemma emacs_lookup_sound fs k f :
  (init fs).1 !! k = Some f → f ∈ fs ∧ k ∈ EmacsMajorModes f.
Proof.
  induction fs as [|g fs IH] using rev_ind.
  - unfold init; simpl. by rewrite lookup_empty.
  - rewrite emacs_lookup_snoc. case_bool_decide as Hk.
    + intros [= <-]. split; [|done]. apply elem_of_app. right. apply list_elem_of_here.
    + intros Hl. destruct (IH Hl). split; [|done]. apply elem_of_app. by left.
Qed.

(** Every registered key is in the map. *)
Lemma ext_lookup_complete fs k f :
  f ∈ fs → k ∈ Extensions f → is_Some ((init fs).2 !! k).
Proof.
  induction fs as [|g fs IH] using rev_ind; [by intros ?%elem_of_nil|].
  intros Hf Hk. rewrite ext_lookup_snoc. case_bool_decide as Hg; [by eexists|].
  apply IH; [|done]. apply elem_of_app in Hf as [Hf|Hf]; [done|].
  apply list_elem_of_singleton in Hf as ->. done.
Qed.

End Registry.

(** ** filepath.Ext *)

Lemma list_ascii_of_string_app s t :
  list_ascii_of_string (s +:+ t) = list_ascii_of_string s ++ list_ascii_of_string t.
Proof.
  induction s as [|c s IH]; [done|].
  change (String c s +:+ t) with (String c (s +:+ t)). simpl. by rewrite IH.
Qed.

Lemma string_of_list_ascii_app l k :
  string_of_list_ascii (l ++ k) = string_of_list_ascii l +:+ string_of_list_ascii k.
Proof.
  induction l as [|c l IH]; [done|]. simpl. rewrite IH. done.
Qed.

Lemma scan_ext_plain body r acc :
  forallb (fun c => negb (is_dot c) && negb (IsPathSeparator c)) body = true →
  scan_ext (rev body ++ r) acc = scan_ext r (body ++ acc).
Proof.
  revert acc. induction body as [|x body IH] using rev_ind; intros acc Hb; [done|].
  rewrite forallb_app in Hb. apply andb_prop in Hb as [Hb Hx].
  simpl in Hx. rewrite andb_true_r in Hx. apply andb_prop in Hx as [Hd Hs].
  apply negb_true_iff in Hd, Hs.
  rewrite rev_app_distr. simpl. rewrite Hs, Hd.
  rewrite IH by done. by rewrite <- app_assoc.
Qed.

(** The extension of [pre ++ "." ++ body] is ["." ++ body] when [body] is plain. *)
Lemma filepath_Ext_dot pre body :
  plain body = true → filepath_Ext (pre +:+ "." +:+ body) = "." +:+ body.
Proof.
  intros Hb. unfold filepath_Ext.
  rewrite !list_ascii_of_string_app, !rev_app_distr, <- app_assoc.
  rewrite scan_ext_plain by exact Hb.
  simpl. rewrite app_nil_r. by rewrite string_of_list_ascii_of_string.
Qed.

(** A non-empty result of the scan is a dot followed by plain bytes. *)
Lemma scan_ext_inv r acc e :
  scan_ext r acc = e → e ≠ [] →
  ∃ body rest, r = rev body ++ "."%char :: rest
    ∧ forallb (fun c => negb (is_dot c) && negb (IsPathSeparator c)) body = true
    ∧ e = "."%char :: body ++ acc.
Proof.
  revert acc e. induction r as [|c r IH]; intros acc e; simpl.
  - intros <- He. done.
  - destruct (IsPathSeparator c) eqn:Hs; [intros <- He; done|].
    destruct (is_dot c) eqn:Hd.
    + intros <- _. unfold is_dot in Hd. apply Ascii.eqb_eq in Hd. subst c.
      by exists [], r.
    + intros Hscan He. destruct (IH _ _ Hscan He) as (body & rest & -> & Hb & ->).
      exists (body ++ [c]), rest. split_and!.
      * rewrite rev_app_distr. done.
      * rewrite forallb_app, Hb. simpl. by rewrite Hs, Hd.
      * by rewrite <- app_assoc.
Qed.

Lemma filepath_Ext_inv path :
  filepath_Ext path ≠ "" →
  ∃ pre body, path = pre +:+ "." +:+ body ∧ plain body = true.
Proof.
  intros He. unfold filepath_Ext in He.
  destruct (scan_ext_inv (rev (list_ascii_of_string path)) []
              (scan_ext (rev (list_ascii_of_string path)) []) eq_refl)
    as (body & rest & Hr & Hb & _).
  { intros Hnil. by rewrite Hnil in He. }
  exists (string_of_list_ascii (rev rest)), (string_of_list_ascii body). split.
  - rewrite <- (string_of_list_ascii_of_string path).
    rewrite <- (rev_involutive (list_ascii_of_string path)), Hr.
    rewrite rev_app_distr, rev_involutive. simpl. rewrite <- app_assoc. simpl.
    by rewrite string_of_list_ascii_app.
  - unfold plain. by rewrite list_ascii_of_string_of_list_ascii.
Qed.

(** *** The extension, in the words of Go's documentation *)

Lemma plain_spec s : plain s = negb (has_dot s) && negb (has_separator s).
Proof.
  unfold plain. induction s as [|c s IH]; [done|]. simpl. rewrite IH.
  destruct (is_dot c), (IsPathSeparator c), (has_dot s), (has_separator s); done.
Qed.

Lemma is_dot_eq c : is_dot c = true → c = "."%char.
Proof. unfold is_dot. apply Ascii.eqb_eq. Qed.

(** A non-empty [spec_extension] starts at a dot and has no other dot. *)
Lemma spec_extension_inv s :
  spec_extension s ≠ "" →
  ∃ p t, s = p +:+ "." +:+ t ∧ has_dot t = false ∧ spec_extension s = "." +:+ t.
Proof.
  induction s as [|c s IH]; [done|]. simpl.
  destruct (spec_extension s) as [|d e] eqn:Hs.
  - destruct (is_dot c) eqn:Hc; [|done]. intros _.
    apply is_dot_eq in Hc as ->. exists "", s. split_and!; [done| |done].
    clear IH. induction s as [|c' s IH]; [done|]. simpl in *.
    destruct (spec_extension s); [|done].
    destruct (is_dot c'); [done|]. by rewrite IH.
  - intros _. destruct IH as (p & t & -> & Ht & He); [done|].
    exists (String c p), t. done.
Qed.

Lemma spec_extension_dot x body : spec_extension (x +:+ "." +:+ body) ≠ "".
Proof.
  induction x as [|c x IH].
  - change ("" +:+ "." +:+ body) with (String "." body). simpl.
    by destruct (spec_extension body).
  - change (String c x +:+ "." +:+ body) with (String c (x +:+ "." +:+ body)).
    simpl. by destruct (spec_extension (x +:+ "." +:+ body)).
Qed.

Lemma has_separator_app s t :
  has_separator (s +:+ t) = has_separator s || has_separator t.
Proof.
  induction s as [|c s IH]; [done|].
  change (String c s +:+ t) with (String c (s +:+ t)). simpl.
  by rewrite IH, orb_assoc.
Qed.

(** A path is a directory part followed by its final element, which holds
    no separator. *)
Lemma final_element_split path :
  ∃ d, path = d +:+ final_element path ∧ has_separator (final_element path) = false.
Proof.
  induction path as [|c s (d & Hd & Hs)]; [by exists ""|]. simpl.
  destruct (has_separator s) eqn:Hsep.
  - exists (String c d). split; [|done].
    change (String c d +:+ final_element s) with (String c (d +:+ final_element s)).
    by rewrite <- Hd.
  - destruct (IsPathSeparator c) eqn:Hc.
    + exists (String c ""). done.
    + exists "". split; [done|]. simpl. by rewrite Hc, Hsep.
Qed.

Lemma final_element_app pre s :
  has_separator s = false →
  final_element (pre +:+ s) = final_element pre +:+ s.
Proof.
  intros Hs. induction pre as [|c pre IH].
  - change ("" +:+ s) with s. destruct s as [|c s]; [done|]. simpl in *.
    apply orb_false_iff in Hs as [Hc Hs']. by rewrite Hs', Hc.
  - change (String c pre +:+ s) with (String c (pre +:+ s)). simpl.
    rewrite has_separator_app, Hs, orb_false_r.
    destruct (has_separator pre); [done|].
    destruct (IsPathSeparator c); [done|].
    done.
Qed.

(** [filepath.Ext] is the suffix beginning at the final dot in the final
    element of the path, and empty if that element has no dot. *)
Lemma filepath_Ext_final_element path :
  filepath_Ext path = spec_extension (final_element path).
Proof.
  destruct (decide (spec_extension (final_element path) = "")) as [He|He].
  - rewrite He. destruct (decide (filepath_Ext path = "")) as [|Hne]; [done|].
    exfalso. destruct (filepath_Ext_inv _ Hne) as (pre & body & -> & Hb).
    rewrite plain_spec in Hb. apply andb_prop in Hb as [_ Hb].
    apply negb_true_iff in Hb.
    rewrite final_element_app in He
      by (change ("." +:+ body) with (String "." body); simpl; by rewrite Hb).
    by apply spec_extension_dot in He.
  - destruct (final_element_split path) as (d & Hd & Hsep).
    destruct (spec_extension_inv _ He) as (p & t & Hp & Ht & ->).
    rewrite Hp in Hd, Hsep. rewrite Hd.
    rewrite has_separator_app in Hsep. apply orb_false_iff in Hsep as [_ Hsep].
    change ("." +:+ t) with (String "." t) in Hsep. simpl in Hsep.
    assert (plain t = true) as Hplain by (by rewrite plain_spec, Ht, Hsep).
    replace (d +:+ p +:+ "." +:+ t) with ((d +:+ p) +:+ "." +:+ t).
    + by apply filepath_Ext_dot.
    + clear. induction d as [|c d IH]; [done|].
      change (String c d +:+ p) with (String c (d +:+ p)).
      change (String c (d +:+ p) +:+ "." +:+ t) with (String c ((d +:+ p) +:+ "." +:+ t)).
      by rewrite IH.
Qed.

(** C4, as the claim states it, fails: for a path whose last dot lies in a
    directory name, [formatterForPath] works with the empty extension, not
    with the substring from the last dot of the path to its end. *)
Lemma extension_not_from_last_dot_of_path :
  filepath_Ext "a.b/c" = "" ∧ spec_extension "a.b/c" = ".b/c"
  ∧ ¬ (∀ path, filepath_Ext path = spec_extension path).
Proof.
  split_and!; [done|done|]. intros H. specialize (H "a.b/c"). discriminate H.
Qed.

(** C4, amended: for every path, the extension [formatterForPath] extracts
    is the substring from the last dot of the final path element (what
    follows the last separator) to the end of the string, dot included; it
    returns no formatter when that element has no dot, and otherwise what
    the extension map holds for that extension. *)
Theorem formatterForPath_extension path :
  filepath_Ext path = spec_extension (final_element path)
  ∧ formatterForPath path =
      (if decide (spec_extension (final_element path) = "") then None
       else extToFormatter !! spec_extension (final_element path)).
Proof.
  split; [apply filepath_Ext_final_element|].
  unfold formatterForPath. simpl. rewrite filepath_Ext_final_element.
  case_decide; [done|]. by destruct (extToFormatter !! _).
Qed.

(** *** The static formatter list *)

(** Every registered extension is well formed and every command has a
    program name: checked on the list itself. *)
Lemma formatters_check :
  forallb (fun f => forallb (well_formed_extension f) (Extensions f)
                    && forallb has_program (Commands f)) formatters = true.
Proof. vm_compute. reflexivity. Qed.

Lemma registered_extension f ext :
  f ∈ formatters → ext ∈ Extensions f →
  extToFormatter !! ext = Some f ∧ ∃ body, ext = "." +:+ body ∧ plain body = true.
Proof.
  intros Hf He. apply list_elem_of_In in Hf, He.
  pose proof formatters_check as Hc. rewrite forallb_forall in Hc.
  specialize (Hc f Hf). apply andb_prop in Hc as [Hc _].
  rewrite forallb_forall in Hc. specialize (Hc ext He).
  unfold well_formed_extension in Hc. apply andb_prop in Hc as [Hl Hs].
  apply bool_decide_eq_true in Hl. split; [done|].
  destruct ext as [|c body]; [done|]. apply andb_prop in Hs as [Hd Hp].
  apply is_dot_eq in Hd as ->. by exists body.
Qed.

Lemma formatterForPath_registered f ext pre :
  f ∈ formatters → ext ∈ Extensions f → formatterForPath (pre +:+ ext) = Some f.
Proof.
  intros Hf He.
  destruct (registered_extension f ext Hf He) as (Hl & body & -> & Hb).
  unfold formatterForPath. simpl. rewrite filepath_Ext_dot by done.
  rewrite Hl. by case_decide.
Qed.

Lemma formatterForPath_unregistered path :
  (∀ f, f ∈ formatters → filepath_Ext path ∉ Extensions f) →
  formatterForPath path = None.
Proof.
  intros Hnone. unfold formatterForPath. simpl.
  case_decide; [done|].
  destruct (extToFormatter !! filepath_Ext path) as [f|] eqn:Hl; [|done].
  apply ext_lookup_sound in Hl as [Hf He]. by destruct (Hnone f Hf).
Qed.

Lemma formatterForEmacs_unregistered mode :
  mode = "" ∨ (∀ f, f ∈ formatters → mode ∉ EmacsMajorModes f) →
  formatterForEmacs mode = None.
Proof.
  intros Hmode. unfold formatterForEmacs. case_decide; [done|].
  destruct Hmode as [|Hnone]; [done|].
  destruct (emacsToFormatter !! mode) as [f|] eqn:Hl; [|done].
  apply emacs_lookup_sound in Hl as [Hf He]. by destruct (Hnone f Hf).
Qed.

Lemma spec_extension_no_dot s : has_dot s = false → spec_extension s = "".
Proof.
  induction s as [|c s IH]; [done|]. simpl.
  intros [Hc Hs]%orb_false_iff. by rewrite (IH Hs), Hc.
Qed.

Lemma spec_extension_dot_eq x body :
  has_dot body = false → spec_extension (x +:+ "." +:+ body) = "." +:+ body.
Proof.
  intros Hb. induction x as [|c x IH].
  - change ("" +:+ "." +:+ body) with (String "." body). simpl.
    by rewrite (spec_extension_no_dot body Hb).
  - change (String c x +:+ "." +:+ body) with (String c (x +:+ "." +:+ body)).
    simpl. rewrite IH. done.
Qed.

(** On the static formatter list the two readings of the extension resolve
    every path alike: an extension that holds a separator is registered by
    no formatter. *)
Lemma spec_resolve_agrees path : spec_resolve path = formatterForPath path.
Proof.
  unfold spec_resolve, formatterForPath. simpl.
  destruct (decide (spec_extension path = "")) as [He|He].
  - case_decide as Hx; [done|].
    destruct (filepath_Ext_inv _ Hx) as (pre & body & -> & Hb).
    by apply spec_extension_dot in He.
  - destruct (spec_extension_inv _ He) as (p & t & Hpath & Ht & Hs). rewrite Hs.
    destruct (has_separator t) eqn:Hsep.
    + assert (extToFormatter !! ("." +:+ t) = None) as ->.
      { destruct (extToFormatter !! ("." +:+ t)) as [f|] eqn:Hl; [|done].
        apply ext_lookup_sound in Hl as [Hf Hk].
        destruct (registered_extension f _ Hf Hk) as (_ & body & Hbody & Hp).
        change ("." +:+ t) with (String "." t) in Hbody.
        change ("." +:+ body) with (String "." body) in Hbody.
        injection Hbody as <-. rewrite plain_spec, Hsep in Hp.
        by rewrite andb_false_r in Hp. }
      case_decide as Hx; [done|].
      destruct (filepath_Ext_inv _ Hx) as (pre & body & Hpath' & Hb).
      rewrite plain_spec in Hb. apply andb_prop in Hb as [Hd Hb].
      apply negb_true_iff in Hd, Hb.
      pose proof (spec_extension_dot_eq pre body Hd) as Hs'.
      rewrite <- Hpath', Hs in Hs'.
      change ("." +:+ t) with (String "." t) in Hs'.
      change ("." +:+ body) with (String "." body) in Hs'.
      injection Hs' as ->. by rewrite Hsep in Hb.
    + assert (plain t = true) as Hplain by (by rewrite plain_spec, Ht, Hsep).
      rewrite Hpath, (filepath_Ext_dot p t Hplain).
      case_decide; [done|]. by destruct (extToFormatter !! _).
Qed.

(** C5: a path that ends in an extension registered by a formatter of the
    static list resolves to that formatter; a path whose extension no
    formatter registers resolves to none. *)
Theorem resolve_by_extension :
  (∀ f ext pre, f ∈ formatters → ext ∈ Extensions f →
     formatterForPath (pre +:+ ext) = Some f)
  ∧ (∀ path, (∀ f, f ∈ formatters → filepath_Ext path ∉ Extensions f) →
     formatterForPath path = None).
Proof.
  split.
  - intros f ext pre. apply formatterForPath_registered.
  - apply formatterForPath_unregistered.
Qed.

Lemma resolve_by_extension_witness :
  formatterForPath ("src/main" +:+ ".py") = Some fmt_python
  ∧ formatterForPath "notes.xyz" = None.
Proof.
  split.
  - apply (proj1 resolve_by_extension fmt_python ".py" "src/main").
    + apply (bool_decide_unpack _). vm_compute. reflexivity.
    + apply (bool_decide_unpack _). vm_compute. reflexivity.
  - apply (proj2 resolve_by_extension "notes.xyz").
    intros f Hf. apply (bool_decide_unpack _). revert f Hf.
    apply (Forall_forall (fun f => bool_decide (filepath_Ext "notes.xyz" ∉ Extensions f))).
    apply (bool_decide_unpack _). vm_compute. reflexivity.
Defined.

(** C10: every command of every formatter of the static list has a first
    token, so [format] never indexes an empty command (it does not panic)
    on a command taken from the registry. *)
Theorem registry_commands_nonempty f command :
  f ∈ formatters → command ∈ Commands f →
  (∃ name args, command = name :: args)
  ∧ ∀ env Dst Src (HW : Writer Dst) (HR : Reader Src) (dst : Dst) (src : Src) w msg,
      (format env dst src command w).1 ≠ Abort (Panic msg).
Proof.
  intros Hf Hc. apply list_elem_of_In in Hf, Hc.
  pose proof formatters_check as Hall. rewrite forallb_forall in Hall.
  specialize (Hall f Hf). apply andb_prop in Hall as [_ Hall].
  rewrite forallb_forall in Hall. specialize (Hall command Hc).
  destruct command as [|name args]; [done|]. split; [by eauto|].
  intros env Dst Src HW HR dst src w msg. rewrite format_eq.
  destruct (ReadAll src w) as [[src' input] w1].
  destruct (exec_run env (name :: args) input) as [out perr].
  by destruct (Write dst out _) as [[dst' werr] w3].
Qed.

Lemma registry_commands_nonempty_witness :
  (∃ name args, ["isort"; "--line-width"; "98"; "--multi_line"; "3"; "-"] = name :: args)
  ∧ ∀ env Dst Src (HW : Writer Dst) (HR : Reader Src) (dst : Dst) (src : Src) w msg,
      (format env dst src ["isort"; "--line-width"; "98"; "--multi_line"; "3"; "-"] w).1
      ≠ Abort (Panic msg).
Proof.
  apply (registry_commands_nonempty fmt_python).
  - apply (bool_decide_unpack _). vm_compute. reflexivity.
  - apply (bool_decide_unpack _). vm_compute. reflexivity.
Defined.

(** ** The chain executor *)

Section Chain.

Context (env : Env).

Lemma log_all_nil w : log_all [] w = w.
Proof. destruct w. unfold log_all. simpl. by rewrite app_nil_r. Qed.

Lemma log_all_event ev evs w : log_all evs (log_event ev w) = log_all (ev :: evs) w.
Proof. unfold log_all, log_event. simpl. by rewrite <- app_assoc. Qed.

Lemma log_all_app evs evs' w : log_all evs' (log_all evs w) = log_all (evs ++ evs') w.
Proof. unfold log_all. simpl. by rewrite <- app_assoc. Qed.

Lemma compose_app pre rest input :
  compose env (pre ++ rest) input =
  match compose env pre input with
  | RunOk mid => compose env rest mid
  | r => r
  end.
Proof.
  revert input. induction pre as [|c pre IH]; intros input; simpl; [done|].
  by destruct (run env c input).
Qed.

Lemma executed_app pre rest input :
  executed env (pre ++ rest) input =
  match compose env pre input with
  | RunOk mid => pre ++ executed env rest mid
  | _ => executed env pre input
  end.
Proof.
  revert input. induction pre as [|c pre IH]; intros input; simpl; [done|].
  destruct (run env c input) as [out| |]; [|done|done].
  rewrite IH. by destruct (compose env pre out).
Qed.

(** When every stage succeeds, every stage runs. *)
Lemma executed_all chain input out :
  compose env chain input = RunOk out → executed env chain input = chain.
Proof.
  revert input. induction chain as [|c chain IH]; intros input; simpl; [done|].
  destruct (run env c input) as [mid| |]; [|done|done].
  intros Hc. by rewrite (IH _ Hc).
Qed.

(** The copy of [buf] into the emptied [tmp] between two stages. *)
Lemma io_Copy_buffers (tmp : Buffer) (mid : Buffer) w :
  io_Copy (Buffer_Reset tmp) mid w = (Done (mid, [], None), w).
Proof. by destruct mid. Qed.

(** One turn of the loop after the first. *)
Lemma formatChain_loop_panic {Src} `{Reader Src} n chain (mid tmp : Buffer) (src : Src) w :
  formatChain_loop env (S n) ([] :: chain) mid tmp src w
  = (Abort (Panic index_out_of_range), w).
Proof.
  cbn [formatChain_loop]. unfold bind at 1. by rewrite io_Copy_buffers.
Qed.

Lemma formatChain_loop_step {Src} `{Reader Src} n name args chain
    (mid tmp : Buffer) (src : Src) w :
  formatChain_loop env (S n) ((name :: args) :: chain) mid tmp src w =
  match exec_run env (name :: args) mid with
  | (out, Some e) => (Done (out, [], src, Some e), log_event (EvSpawn (name :: args)) w)
  | (out, None) =>
      formatChain_loop env (S (S n)) chain out [] src (log_event (EvSpawn (name :: args)) w)
  end.
Proof.
  cbn [formatChain_loop]. unfold bind at 1. rewrite io_Copy_buffers.
  unfold bind at 1. rewrite format_eq.
  cbn [ReadAll Buffer_Reader Write Buffer_Writer Buffer_Reset].
  by destruct (exec_run env (name :: args) mid) as [out [e|]].
Qed.

(** The loop from the second stage on is the composition of the remaining
    commands, applied to what the previous stage left in [buf]. *)
Lemma formatChain_loop_tail {Src} `{Reader Src} n chain (mid tmp : Buffer) (src : Src) w :
  match compose env chain mid with
  | RunOk out =>
      ∃ tmp', formatChain_loop env (S n) chain mid tmp src w
              = (Done (out, tmp', src, None), log_all (map EvSpawn chain) w)
  | RunErr e =>
      ∃ buf' tmp', formatChain_loop env (S n) chain mid tmp src w
                   = (Done (buf', tmp', src, Some e),
                      log_all (map EvSpawn (executed env chain mid)) w)
  | RunPanic =>
      formatChain_loop env (S n) chain mid tmp src w
      = (Abort (Panic index_out_of_range),
         log_all (map EvSpawn (executed env chain mid)) w)
  end.
Proof.
  revert n mid tmp w. induction chain as [|c chain IH]; intros n mid tmp w.
  - simpl. rewrite log_all_nil. by exists tmp.
  - destruct c as [|name args].
    + rewrite formatChain_loop_panic. simpl. by rewrite log_all_nil.
    + rewrite formatChain_loop_step. cbn [compose executed]. unfold run.
      destruct (exec_run env (name :: args) mid) as [out [e|]].
      * by eexists _, _.
      * specialize (IH (S n) out [] (log_event (EvSpawn (name :: args)) w)).
        destruct (compose env chain out) as [out'|e|].
        -- destruct IH as [tmp' ->]. rewrite log_all_event. by eexists.
        -- destruct IH as (buf' & tmp' & ->). rewrite log_all_event. by eexists _, _.
        -- rewrite IH. by rewrite log_all_event.
Qed.

(** [formatChain] in terms of the composition of its stages. *)
Lemma formatChain_eq {Dst Src} `{Writer Dst} `{Reader Src}
    (dst : Dst) (src src1 : Src) chain w input w1 :
  ReadAll src w = ((src1, input), w1) →
  formatChain env dst src chain w =
  match chain with
  | [] => (Done (dst, src, None), w)
  | [] :: _ => (Abort (Panic index_out_of_range), w)
  | _ =>
      match compose env chain input with
      | RunOk out => deliver dst src1 out (log_all (map EvSpawn chain) w1)
      | RunErr e =>
          (Done (dst, src1, Some e), log_all (map EvSpawn (executed env chain input)) w1)
      | RunPanic =>
          (Abort (Panic index_out_of_range),
           log_all (map EvSpawn (executed env chain input)) w1)
      end
  end.
Proof.
  intros Hread. unfold formatChain. destruct chain as [|c chain]; [done|].
  destruct c as [|name args]; [done|].
  cbn [formatChain_loop compose executed]. unfold bind at 1. unfold bind at 1.
  rewrite format_eq, Hread. unfold run.
  destruct (exec_run env (name :: args) input) as [out [e|]];
    cbn [Write Buffer_Writer app].
  - done.
  - pose proof (formatChain_loop_tail 0 chain out [] src1
                  (log_event (EvSpawn (name :: args)) w1)) as Htail.
    destruct (compose env chain out) as [out'|e|].
    + destruct Htail as [tmp' ->]. by rewrite log_all_event.
    + destruct Htail as (buf' & tmp' & ->). by rewrite log_all_event.
    + rewrite Htail. by rewrite log_all_event.
Qed.

End Chain.

(** [run] is what [format] does with a buffer as destination. *)
Lemma format_run env {Src} `{Reader Src} (dst : Buffer) (src src1 : Src) command w input w1 :
  ReadAll src w = ((src1, input), w1) →
  match run env command input with
  | RunOk out =>
      format env dst src command w
      = (Done (dst ++ out, src1, None), log_event (EvSpawn command) w1)
  | RunErr e =>
      ∃ partial, format env dst src command w
                 = (Done (dst ++ partial, src1, Some e), log_event (EvSpawn command) w1)
  | RunPanic => format env dst src command w = (Abort (Panic index_out_of_range), w)
  end.
Proof.
  intros Hread. destruct command as [|name args]; [done|].
  unfold run. rewrite format_eq, Hread. cbn [Write Buffer_Writer].
  destruct (exec_run env (name :: args) input) as [out [e|]]; [by eexists|done].
Qed.

Lemma deliver_buffer {Src} (dst : Buffer) (src : Src) out w :
  deliver dst src out w = (Done (dst ++ out, src, None), w).
Proof. destruct out; [|done]. unfold deliver, bind. simpl. by rewrite app_nil_r. Qed.

Lemma deliver_Stdout {Src} (src : Src) out w :
  deliver Stdout src out w = (Done (Stdout, src, None), set_stdout (stdout w ++ out) w).
Proof.
  destruct out; [|done]. unfold deliver, bind, set_stdout. simpl.
  rewrite app_nil_r. by destruct w.
Qed.

(** C2: on a non-empty chain all of whose stages succeed, what
    [formatChain] hands to its destination is the left-to-right
    composition of the Process Runner over the commands, in their order,
    applied to the bytes of the source (into a buffer: exactly these bytes
    are appended); for a chain of one command it is the Process Runner's
    output for that command on the original input. *)
Theorem formatChain_composes env {Dst Src} `{Writer Dst} `{Reader Src}
    (dst : Dst) (src src1 : Src) chain w input w1 out :
  chain ≠ [] →
  ReadAll src w = ((src1, input), w1) →
  compose env chain input = RunOk out →
  formatChain env dst src chain w = deliver dst src1 out (log_all (map EvSpawn chain) w1)
  ∧ (∀ buf : Buffer,
       formatChain env buf src chain w
       = (Done (buf ++ out, src1, None), log_all (map EvSpawn chain) w1))
  ∧ (∀ command, chain = [command] → run env command input = RunOk out).
Proof.
  intros Hne Hread Hout.
  assert (∀ D (HD : Writer D) (d : D),
            formatChain env d src chain w
            = deliver d src1 out (log_all (map EvSpawn chain) w1)) as Hgen.
  { intros D HD d. rewrite (formatChain_eq env d src src1 chain w input w1 Hread).
    destruct chain as [|[|name args] rest]; [done| |by rewrite Hout].
    simpl in Hout. done. }
  split_and!.
  - apply Hgen.
  - intros buf. by rewrite Hgen, deliver_buffer.
  - intros command ->. simpl in Hout. by destruct (run env command input).
Qed.

Lemma formatChain_composes_witness :
  formatChain (demo_env false) Stdout (demo_input : Buffer) (Commands fmt_python) demo_world
  = deliver Stdout ([] : Buffer) (list_byte_of_string "x=1<autopep8><isort>")
      (log_all (map EvSpawn (Commands fmt_python)) demo_world)
  ∧ (∀ buf : Buffer,
       formatChain (demo_env false) buf (demo_input : Buffer) (Commands fmt_python) demo_world
       = (Done (buf ++ list_byte_of_string "x=1<autopep8><isort>", [], None),
          log_all (map EvSpawn (Commands fmt_python)) demo_world))
  ∧ (∀ command, Commands fmt_python = [command] →
       run (demo_env false) command demo_input
       = RunOk (list_byte_of_string "x=1<autopep8><isort>")).
Proof.
  apply (formatChain_composes (demo_env false) Stdout (demo_input : Buffer) []
           (Commands fmt_python) demo_world demo_input demo_world
           (list_byte_of_string "x=1<autopep8><isort>")).
  - discriminate.
  - reflexivity.
  - vm_compute. reflexivity.
Defined.

(** C3: when a stage is the first to fail, [formatChain] runs no later
    stage (the commands spawned are those up to the failing one), returns
    the very error of that stage, and hands nothing to the destination:
    the destination comes back as it was, and the world is the one left by
    reading the source, with only the spawned commands added to its trace. *)
Theorem formatChain_short_circuits env {Dst Src} `{Writer Dst} `{Reader Src}
    (dst : Dst) (src src1 : Src) pre command post w input w1 mid e :
  ReadAll src w = ((src1, input), w1) →
  compose env pre input = RunOk mid →
  run env command mid = RunErr e →
  formatChain env dst src (pre ++ command :: post) w
  = (Done (dst, src1, Some e), log_all (map EvSpawn (pre ++ [command])) w1)
  ∧ files (formatChain env dst src (pre ++ command :: post) w).2 = files w1
  ∧ stdout (formatChain env dst src (pre ++ command :: post) w).2 = stdout w1.
Proof.
  intros Hread Hpre Hfail.
  assert (formatChain env dst src (pre ++ command :: post) w
          = (Done (dst, src1, Some e), log_all (map EvSpawn (pre ++ [command])) w1)) as ->.
  { rewrite (formatChain_eq env dst src src1 _ w input w1 Hread).
    rewrite compose_app, executed_app, Hpre. cbn [compose executed]. rewrite Hfail.
    destruct pre as [|[|name args] pre]; simpl.
    - by destruct command.
    - done.
    - done. }
  done.
Qed.

Lemma formatChain_short_circuits_witness :
  formatChain (demo_env false) Stdout (demo_input : Buffer)
    ([["first"]] ++ ["false"] :: [["third"]]) demo_world
  = (Done (Stdout, [], Some (ExitError 1)),
     log_all (map EvSpawn ([["first"]] ++ [["false"]])) demo_world)
  ∧ files (formatChain (demo_env false) Stdout (demo_input : Buffer)
             ([["first"]] ++ ["false"] :: [["third"]]) demo_world).2
    = files demo_world
  ∧ stdout (formatChain (demo_env false) Stdout (demo_input : Buffer)
              ([["first"]] ++ ["false"] :: [["third"]]) demo_world).2
    = stdout demo_world.
Proof.
  apply (formatChain_short_circuits (demo_env false) Stdout (demo_input : Buffer) []
           [["first"]] ["false"] [["third"]] demo_world demo_input demo_world
           (list_byte_of_string "x=1<first>") (ExitError 1)).
  - reflexivity.
  - vm_compute. reflexivity.
  - vm_compute. reflexivity.
Defined.

(** ** The dispatch layer *)

Lemma bind_done {A B} (m : M A) (k : A → M B) w a w' :
  m w = (Done a, w') → bind m k w = k a w'.
Proof. intros Hm. unfold bind. by rewrite Hm. Qed.

Lemma bind_abort {A B} (m : M A) (k : A → M B) w x w' :
  m w = (Abort x, w') → bind m k w = (Abort x, w').
Proof. intros Hm. unfold bind. by rewrite Hm. Qed.

Lemma os_OpenFile_exists path rw w A :
  files w !! path = Some A →
  os_OpenFile path rw w = (Done (Some (Opened path rw 0), None), log_event (EvOpen path rw) w).
Proof. intros Hf. unfold os_OpenFile. by rewrite Hf. Qed.

Lemma os_OpenFile_missing path rw w :
  files w !! path = None →
  os_OpenFile path rw w
  = (Done (None, Some (PathError "open" path "no such file or directory")),
     log_event (EvOpen path rw) w).
Proof. intros Hf. unfold os_OpenFile. by rewrite Hf. Qed.

(** A process reading a freshly opened file gets all its bytes. *)
Lemma ReadAll_Opened path rw w A :
  files w !! path = Some A →
  ReadAll (Opened path rw 0) w = ((Opened path rw (length A), A), w).
Proof.
  intros Hf. unfold ReadAll, File_Reader, content. rewrite Hf. simpl.
  by rewrite drop_0.
Qed.

Lemma write_at_start data : write_at 0 data [] = data.
Proof. unfold write_at. simpl. by rewrite drop_nil, app_nil_r. Qed.

(** Truncate to zero, seek to the start, copy the result: the file holds
    the result and nothing else. *)
Lemma rewrite_file path off B w :
  ∃ w',
    (let* err := File_Truncate (Opened path true off) 0 in
     match err with
     | Some e => ret (Some e)
     | None =>
         let* (file, err) := File_Seek (Opened path true off) 0 in
         match err with
         | Some e => ret (Some e)
         | None => let* (file, buf, err) := io_Copy file (B : Buffer) in ret err
         end
     end) w = (Done None, w')
    ∧ files w' = <[path := B]> (files w)
    ∧ trace w' = trace w ++ [EvTruncate path; EvSeek path]
                   ++ match B with [] => [] | _ => [EvWrite path B] end.
Proof.
  unfold bind, File_Truncate, File_Seek. simpl.
  destruct B as [|b B]; simpl.
  - eexists. split_and!; [done|done|]. simpl. by rewrite <- app_assoc.
  - unfold lift, Write, File_Writer, content. simpl.
    rewrite lookup_insert_eq. simpl. rewrite write_at_start.
    eexists. split_and!; [done| |].
    + simpl. by rewrite insert_insert_eq.
    + simpl. by rewrite <- !app_assoc.
Qed.

(** C1: [formatWrite] is all-or-nothing. For a file holding [A]: if a
    stage of the chain fails (or panics), the error is returned, the bytes
    of every file are as before and nothing but the open and the spawned
    commands is in the trace (no truncate, seek or write); if every stage
    succeeds and the chain produces [B], the file holds exactly [B], after
    a truncate, a seek and (for a non-empty [B]) one write of [B]. *)
Theorem formatWrite_all_or_nothing env path f w A :
  files w !! path = Some A →
  match chain_output env (Commands f) A with
  | RunOk B =>
      ∃ w', formatWrite env path f w = (Done None, w')
            ∧ files w' = <[path := B]> (files w)
            ∧ trace w' = trace w ++ EvOpen path true :: map EvSpawn (Commands f)
                           ++ [EvTruncate path; EvSeek path]
                           ++ match B with [] => [] | _ => [EvWrite path B] end
  | RunErr e =>
      ∃ w', formatWrite env path f w = (Done (Some e), w')
            ∧ files w' = files w
            ∧ trace w' = trace w ++ EvOpen path true
                           :: map EvSpawn (executed env (Commands f) A)
  | RunPanic =>
      ∃ w', formatWrite env path f w = (Abort (Panic index_out_of_range), w')
            ∧ files w' = files w
            ∧ trace w' = trace w ++ EvOpen path true
                           :: map EvSpawn (executed env (Commands f) A)
  end.
Proof.
  intros Hf. unfold formatWrite.
  rewrite (bind_done _ _ _ _ _ (os_OpenFile_exists path true w A Hf)).
  set (w0 := log_event (EvOpen path true) w).
  assert (ReadAll (Opened path true 0) w0 = ((Opened path true (length A), A), w0))
    as Hread by (by apply ReadAll_Opened).
  pose proof (formatChain_eq env ([] : Buffer) (Opened path true 0) _
                (Commands f) w0 A w0 Hread) as Hchain.
  destruct (Commands f) as [|c chain] eqn:Hc.
  - (* the empty chain produces nothing *)
    simpl. rewrite (bind_done _ _ _ _ _ Hchain).
    destruct (rewrite_file path 0 [] w0) as (w' & -> & Hfiles & Htrace).
    exists w'. split_and!; [done|done|]. rewrite Htrace. simpl.
    by rewrite <- app_assoc.
  - destruct c as [|name args].
    + simpl. rewrite (bind_abort _ _ _ _ _ Hchain). exists w0.
      split_and!; [done|done|]. simpl. done.
    + unfold chain_output.
      destruct (compose env ((name :: args) :: chain) A) as [B|e|].
      * rewrite deliver_buffer, app_nil_l in Hchain.
        rewrite (bind_done _ _ _ _ _ Hchain).
        destruct (rewrite_file path (length A) B
                    (log_all (map EvSpawn ((name :: args) :: chain)) w0))
          as (w' & -> & Hfiles & Htrace).
        exists w'. split_and!; [done|done|]. rewrite Htrace. simpl.
        by rewrite <- !app_assoc.
      * rewrite (bind_done _ _ _ _ _ Hchain). eexists. split_and!; [done|done|].
        simpl. by rewrite <- app_assoc.
      * rewrite (bind_abort _ _ _ _ _ Hchain). eexists. split_and!; [done|done|].
        simpl. by rewrite <- app_assoc.
Qed.

Lemma formatWrite_all_or_nothing_witness :
  (∃ w', formatWrite (demo_env true) "b.json" fmt_json demo_world = (Done None, w')
         ∧ files w' = <["b.json" := list_byte_of_string "{}<jsonlint>"]> (files demo_world)
         ∧ trace w' = trace demo_world ++ EvOpen "b.json" true
                        :: map EvSpawn [["jsonlint"; "-"]]
                        ++ [EvTruncate "b.json"; EvSeek "b.json"]
                        ++ [EvWrite "b.json" (list_byte_of_string "{}<jsonlint>")])
  ∧ (∃ w', formatWrite (demo_env true) "a.py" fmt_failing demo_world
           = (Done (Some (ExitError 1)), w')
           ∧ files w' = files demo_world
           ∧ trace w' = trace demo_world ++ EvOpen "a.py" true
                          :: map EvSpawn [["first"]; ["false"]]).
Proof.
  split.
  - apply (formatWrite_all_or_nothing (demo_env true) "b.json" fmt_json demo_world
             (list_byte_of_string "{}")).
    vm_compute. reflexivity.
  - apply (formatWrite_all_or_nothing (demo_env true) "a.py" fmt_failing demo_world
             demo_input).
    vm_compute. reflexivity.
Defined.

(** C8: whatever the path, the formatter and the outcome (the chain
    succeeds, a stage fails or panics, the file cannot be opened),
    [formatStdout] leaves the bytes of every file as they were. *)
Theorem formatStdout_preserves_files env path f w :
  files (formatStdout env path f w).2 = files w.
Proof.
  unfold formatStdout, os_Open.
  destruct (files w !! path) as [A|] eqn:Hf.
  - rewrite (bind_done _ _ _ _ _ (os_OpenFile_exists path false w A Hf)).
    set (w0 := log_event (EvOpen path false) w).
    assert (ReadAll (Opened path false 0) w0 = ((Opened path false (length A), A), w0))
      as Hread by (by apply ReadAll_Opened).
    pose proof (formatChain_eq env Stdout (Opened path false 0) _
                  (Commands f) w0 A w0 Hread) as Hchain.
    destruct (Commands f) as [|[|name args] chain].
    + by rewrite (bind_done _ _ _ _ _ Hchain).
    + by rewrite (bind_abort _ _ _ _ _ Hchain).
    + destruct (compose env ((name :: args) :: chain) A) as [B|e|].
      * rewrite deliver_Stdout in Hchain. by rewrite (bind_done _ _ _ _ _ Hchain).
      * by rewrite (bind_done _ _ _ _ _ Hchain).
      * by rewrite (bind_abort _ _ _ _ _ Hchain).
  - by rewrite (bind_done _ _ _ _ _ (os_OpenFile_missing path false w Hf)).
Qed.

(** C6: for a path whose extension no formatter registers, [formatFile]
    returns normally and leaves the world, trace included, as it was: no
    file is opened and no process is spawned, whatever the operation. *)
Theorem formatFile_unregistered path op w :
  (∀ f, f ∈ formatters → filepath_Ext path ∉ Extensions f) →
  formatFile path op w = (Done (), w).
Proof.
  intros Hnone. unfold formatFile.
  by rewrite (formatterForPath_unregistered path Hnone).
Qed.

Lemma formatFile_unregistered_witness :
  formatFile "notes.xyz" (formatWrite (demo_env true)) demo_world = (Done (), demo_world).
Proof.
  apply (formatFile_unregistered "notes.xyz").
  intros f Hf. apply (bool_decide_unpack _). revert f Hf.
  apply (Forall_forall (fun f => bool_decide (filepath_Ext "notes.xyz" ∉ Extensions f))).
  apply (bool_decide_unpack _). vm_compute. reflexivity.
Defined.

(** C7: with the mode flag empty, or naming a mode no formatter registers,
    [formatStdin] ends the program through [log.Fatalln] with the
    unresolved-mode message, and the world is as it was: no process is
    spawned and standard output receives nothing. So does [main] on the
    single argument [-]. *)
Theorem formatStdin_unresolved env w :
  emacs env = "" ∨ (∀ f, f ∈ formatters → emacs env ∉ EmacsMajorModes f) →
  formatStdin env w = (Abort (Fatal no_mode), w)
  ∧ main env ["-"] w = (Abort (Fatal no_mode), w).
Proof.
  intros Hmode.
  assert (formatStdin env w = (Abort (Fatal no_mode), w)) as Hstdin.
  { unfold formatStdin. by rewrite (formatterForEmacs_unregistered _ Hmode). }
  split; [done|]. unfold main. simpl. done.
Qed.

Lemma formatStdin_unresolved_witness :
  (formatStdin (mkEnv demo_run "" false) demo_world = (Abort (Fatal no_mode), demo_world)
   ∧ main (mkEnv demo_run "" false) ["-"] demo_world = (Abort (Fatal no_mode), demo_world))
  ∧ (formatStdin (mkEnv demo_run "cobol-mode" false) demo_world
     = (Abort (Fatal no_mode), demo_world)
     ∧ main (mkEnv demo_run "cobol-mode" false) ["-"] demo_world
       = (Abort (Fatal no_mode), demo_world)).
Proof.
  split.
  - apply (formatStdin_unresolved (mkEnv demo_run "" false) demo_world).
    left. reflexivity.
  - apply (formatStdin_unresolved (mkEnv demo_run "cobol-mode" false) demo_world).
    right. simpl. intros f Hf. apply (bool_decide_unpack _). revert f Hf.
    apply (Forall_forall (fun f => bool_decide ("cobol-mode" ∉ EmacsMajorModes f))).
    apply (bool_decide_unpack _). vm_compute. reflexivity.
Defined.

(** ** The entry point *)

(** [main] of [metafmt.go] dispatches every path argument, in order. *)
Lemma main_dispatches_every_path env args w :
  args ≠ [] → args ≠ ["-"] →
  main env args w
  = for_range args (dispatch (if write env then formatWrite env else formatStdout env)) w.
Proof.
  intros Hne Hdash. unfold main.
  destruct args as [|a [|b args]]; [done| |done].
  simpl. case_bool_decide as Ha; [|done]. by injection Ha as ->.
Qed.

(** [main] of the older revision never looks at its first argument. *)
Lemma main_part001_drops_first env a args w :
  a :: args ≠ ["-"] →
  Part001.main env (a :: args) w
  = for_range args (fun path =>
      match formatterForPath path with
      | None => ret ()
      | Some formatter =>
          let* err := (if write env then formatWrite env else formatStdout env)
                        path formatter in
          match err with
          | Some e => log_Fatalln e
          | None => ret ()
          end
      end) w.
Proof.
  intros Hdash. unfold Part001.main.
  destruct args as [|b args]; [|done].
  simpl. case_bool_decide as Ha; [|done]. by injection Ha as ->.
Qed.

(** C9 fails on the older revision: run with [-write] on the single path
    [a.py], it returns without opening the file or spawning a command and
    the file is as before, while [main] of [metafmt.go] formats it; given
    [a.py] and [b.json] it formats the second file only. *)
Theorem main_part001_skips_first_path :
  Part001.main (demo_env true) ["a.py"] demo_world = (Done (), demo_world)
  ∧ (main (demo_env true) ["a.py"] demo_world).1 = Done ()
  ∧ files (main (demo_env true) ["a.py"] demo_world).2 !! "a.py"
    = Some (list_byte_of_string "x=1<autopep8><isort>")
  ∧ (Part001.main (demo_env true) ["a.py"; "b.json"] demo_world).1 = Done ()
  ∧ files (Part001.main (demo_env true) ["a.py"; "b.json"] demo_world).2 !! "a.py"
    = Some (list_byte_of_string "x=1")
  ∧ files (Part001.main (demo_env true) ["a.py"; "b.json"] demo_world).2 !! "b.json"
    = Some (list_byte_of_string "{}<jsonlint>").
Proof. vm_compute. repeat split. Qed.

(** * Further properties of the program *)

(** ** Construction of the lookup maps *)

Lemma last_registering_snoc keys fs f k :
  last_registering keys (fs ++ [f]) k
  = if bool_decide (k ∈ keys f) then Some f else last_registering keys fs k.
Proof.
  unfold last_registering. rewrite filter_app, filter_cons, filter_nil.
  case_bool_decide as Hk.
  - rewrite decide_True by done. by rewrite last_snoc.
  - rewrite decide_False by done. by rewrite app_nil_r.
Qed.

(** X1: [init] is last-write-wins, for any formatter list: each map sends
    a key to the last formatter of the list that registers it, and holds
    nothing for a key no formatter registers. *)
Theorem init_last_write_wins fs k :
  (init fs).2 !! k = last_registering Extensions fs k
  ∧ (init fs).1 !! k = last_registering EmacsMajorModes fs k.
Proof.
  induction fs as [|f fs [IHx IHm]] using rev_ind.
  - split; unfold init; simpl; by rewrite lookup_empty.
  - rewrite ext_lookup_snoc, emacs_lookup_snoc, !last_registering_snoc.
    by rewrite IHx, IHm.
Qed.

(** ** Resolution by mode *)

Lemma modes_check :
  forallb (fun f => forallb (well_formed_mode f) (EmacsMajorModes f) && has_commands f)
          formatters = true.
Proof. vm_compute. reflexivity. Qed.

Lemma registered_mode f mode :
  f ∈ formatters → mode ∈ EmacsMajorModes f →
  emacsToFormatter !! mode = Some f ∧ mode ≠ "".
Proof.
  intros Hf Hm. apply list_elem_of_In in Hf, Hm.
  pose proof modes_check as Hc. rewrite forallb_forall in Hc.
  specialize (Hc f Hf). apply andb_prop in Hc as [Hc _].
  rewrite forallb_forall in Hc. specialize (Hc mode Hm).
  unfold well_formed_mode in Hc. apply andb_prop in Hc as [Hl Hs].
  apply bool_decide_eq_true in Hl. apply negb_true_iff, bool_decide_eq_false in Hs.
  done.
Qed.

Lemma formatterForEmacs_registered f mode :
  f ∈ formatters → mode ∈ EmacsMajorModes f → formatterForEmacs mode = Some f.
Proof.
  intros Hf Hm. destruct (registered_mode f mode Hf Hm) as [Hl Hne].
  unfold formatterForEmacs. case_decide; [done|]. by rewrite Hl.
Qed.

(** The chain of a formatter of the static list starts with a command that
    has a program name. *)
Lemma registered_chain f :
  f ∈ formatters → ∃ name args chain, Commands f = (name :: args) :: chain.
Proof.
  intros Hf. apply list_elem_of_In in Hf.
  pose proof modes_check as Hm. rewrite forallb_forall in Hm.
  specialize (Hm f Hf). apply andb_prop in Hm as [_ Hm].
  pose proof formatters_check as Hc. rewrite forallb_forall in Hc.
  specialize (Hc f Hf). apply andb_prop in Hc as [_ Hc].
  unfold has_commands in Hm. destruct (Commands f) as [|[|name args] chain]; [done|done|].
  by eauto.
Qed.

(** X2: a mode name registered by a formatter of the static list resolves
    to that formatter, and whatever formatter [formatterForEmacs] returns
    is one of the list that registers the mode. *)
Theorem resolve_by_mode :
  (∀ f mode, f ∈ formatters → mode ∈ EmacsMajorModes f →
     formatterForEmacs mode = Some f)
  ∧ (∀ mode f, formatterForEmacs mode = Some f →
     f ∈ formatters ∧ mode ∈ EmacsMajorModes f).
Proof.
  split; [apply formatterForEmacs_registered|].
  intros mode f. unfold formatterForEmacs. case_decide; [done|].
  destruct (emacsToFormatter !! mode) as [g|] eqn:Hl; [|done].
  intros [= <-]. by apply emacs_lookup_sound in Hl.
Qed.

Lemma resolve_by_mode_witness :
  formatterForEmacs "js2-mode" = Some fmt_js
  ∧ (fmt_python ∈ formatters ∧ "python-mode" ∈ EmacsMajorModes fmt_python).
Proof.
  split.
  - apply (proj1 resolve_by_mode fmt_js "js2-mode").
    + apply (bool_decide_unpack _). vm_compute. reflexivity.
    + apply (bool_decide_unpack _). vm_compute. reflexivity.
  - apply (proj2 resolve_by_mode "python-mode" fmt_python).
    vm_compute. reflexivity.
Defined.

(** ** Resolution by path *)

Lemma final_element_plain s : has_separator s = false → final_element s = s.
Proof.
  destruct s as [|c s]; [done|]. simpl.
  intros [Hc Hs]%orb_false_iff. by rewrite Hs, Hc.
Qed.

(** X3: the formatter of a path depends on its final element only: the
    directories before the last separator play no part. *)
Theorem formatterForPath_final_element path :
  formatterForPath path = formatterForPath (final_element path).
Proof.
  unfold formatterForPath. simpl. rewrite !filepath_Ext_final_element.
  destruct (final_element_split path) as (d & _ & Hs).
  by rewrite (final_element_plain _ Hs).
Qed.

(** ** A command without a program name *)

(** X4: when the stages before it succeed, a command with no token makes
    [formatChain] panic on [command[0]]: the stages before it have run, no
    later stage runs, and nothing is handed to the destination. When it is
    the first command, the source is not even read. *)
Theorem formatChain_empty_command env {Dst Src} `{Writer Dst} `{Reader Src}
    (dst : Dst) (src src1 : Src) pre post w input w1 mid :
  ReadAll src w = ((src1, input), w1) →
  compose env pre input = RunOk mid →
  formatChain env dst src (pre ++ [] :: post) w
  = (Abort (Panic index_out_of_range),
     log_all (map EvSpawn pre) (match pre with [] => w | _ => w1 end)).
Proof.
  intros Hread Hpre.
  rewrite (formatChain_eq env dst src src1 _ w input w1 Hread).
  rewrite compose_app, executed_app, Hpre. cbn [compose executed run].
  rewrite app_nil_r.
  destruct pre as [|[|name args] pre]; simpl.
  - by rewrite log_all_nil.
  - done.
  - done.
Qed.

Lemma formatChain_empty_command_witness :
  formatChain (demo_env false) Stdout (demo_input : Buffer)
    ([["first"]; ["second"]] ++ [] :: [["third"]]) demo_world
  = (Abort (Panic index_out_of_range),
     log_all (map EvSpawn [["first"]; ["second"]]) demo_world).
Proof.
  apply (formatChain_empty_command (demo_env false) Stdout (demo_input : Buffer) []
           [["first"]; ["second"]] [["third"]] demo_world demo_input demo_world
           (list_byte_of_string "x=1<first><second>")).
  - reflexivity.
  - vm_compute. reflexivity.
Defined.

(** ** The two operations on a file, outcome by outcome *)

Lemma rewrite_file_eq path off B w :
  (let* err := File_Truncate (Opened path true off) 0 in
   match err with
   | Some e => ret (Some e)
   | None =>
       let* (file, err) := File_Seek (Opened path true off) 0 in
       match err with
       | Some e => ret (Some e)
       | None => let* (file, buf, err) := io_Copy file (B : Buffer) in ret err
       end
   end) w
  = (Done None,
     mkWorld (<[path := B]> (files w)) (tree w) (stdin w) (stdout w)
       (trace w ++ [EvTruncate path; EvSeek path]
          ++ match B with [] => [] | _ => [EvWrite path B] end)).
Proof.
  unfold bind, File_Truncate, File_Seek. simpl.
  destruct B as [|b B]; simpl.
  - unfold log_event. simpl. by rewrite <- app_assoc.
  - unfold lift, Write, File_Writer, content, log_event, set_files. simpl.
    rewrite lookup_insert_eq. simpl. rewrite write_at_start, insert_insert_eq.
    by rewrite <- !app_assoc.
Qed.

Lemma formatWrite_eq env path f w A :
  files w !! path = Some A →
  formatWrite env path f w =
  match chain_output env (Commands f) A with
  | RunOk B => (Done None, written path (Commands f) B w)
  | RunErr e =>
      (Done (Some e),
       log_all (EvOpen path true :: map EvSpawn (executed env (Commands f) A)) w)
  | RunPanic =>
      (Abort (Panic index_out_of_range),
       log_all (EvOpen path true :: map EvSpawn (executed env (Commands f) A)) w)
  end.
Proof.
  intros Hf. unfold formatWrite.
  rewrite (bind_done _ _ _ _ _ (os_OpenFile_exists path true w A Hf)).
  set (w0 := log_event (EvOpen path true) w).
  assert (ReadAll (Opened path true 0) w0 = ((Opened path true (length A), A), w0))
    as Hread by (by apply ReadAll_Opened).
  pose proof (formatChain_eq env ([] : Buffer) (Opened path true 0) _
                (Commands f) w0 A w0 Hread) as Hchain.
  destruct (Commands f) as [|[|name args] chain].
  - simpl. rewrite (bind_done _ _ _ _ _ Hchain), rewrite_file_eq.
    unfold written. simpl. by rewrite <- app_assoc.
  - simpl. by rewrite (bind_abort _ _ _ _ _ Hchain).
  - unfold chain_output.
    destruct (compose env ((name :: args) :: chain) A) as [B|e|].
    + rewrite deliver_buffer, app_nil_l in Hchain.
      rewrite (bind_done _ _ _ _ _ Hchain), rewrite_file_eq.
      unfold written. simpl. by rewrite <- !app_assoc.
    + rewrite (bind_done _ _ _ _ _ Hchain). unfold w0. by rewrite log_all_event.
    + rewrite (bind_abort _ _ _ _ _ Hchain). unfold w0. by rewrite log_all_event.
Qed.

Lemma formatStdout_eq env path f w A :
  files w !! path = Some A →
  formatStdout env path f w =
  match chain_output env (Commands f) A with
  | RunOk B => (Done None, printed path (Commands f) B w)
  | RunErr e =>
      (Done (Some e),
       log_all (EvOpen path false :: map EvSpawn (executed env (Commands f) A)) w)
  | RunPanic =>
      (Abort (Panic index_out_of_range),
       log_all (EvOpen path false :: map EvSpawn (executed env (Commands f) A)) w)
  end.
Proof.
  intros Hf. unfold formatStdout, os_Open.
  rewrite (bind_done _ _ _ _ _ (os_OpenFile_exists path false w A Hf)).
  set (w0 := log_event (EvOpen path false) w).
  assert (ReadAll (Opened path false 0) w0 = ((Opened path false (length A), A), w0))
    as Hread by (by apply ReadAll_Opened).
  pose proof (formatChain_eq env Stdout (Opened path false 0) _
                (Commands f) w0 A w0 Hread) as Hchain.
  destruct (Commands f) as [|[|name args] chain].
  - simpl. rewrite (bind_done _ _ _ _ _ Hchain). unfold printed. simpl.
    by rewrite app_nil_r.
  - simpl. by rewrite (bind_abort _ _ _ _ _ Hchain).
  - unfold chain_output.
    destruct (compose env ((name :: args) :: chain) A) as [B|e|].
    + rewrite deliver_Stdout in Hchain. rewrite (bind_done _ _ _ _ _ Hchain).
      unfold printed, set_stdout. simpl. by rewrite <- app_assoc.
    + rewrite (bind_done _ _ _ _ _ Hchain). unfold w0. by rewrite log_all_event.
    + rewrite (bind_abort _ _ _ _ _ Hchain). unfold w0. by rewrite log_all_event.
Qed.

Lemma formatWrite_missing env path f w :
  files w !! path = None →
  formatWrite env path f w
  = (Done (Some (PathError "open" path "no such file or directory")),
     log_event (EvOpen path true) w).
Proof.
  intros Hf. unfold formatWrite.
  by rewrite (bind_done _ _ _ _ _ (os_OpenFile_missing path true w Hf)).
Qed.

Lemma formatStdout_missing env path f w :
  files w !! path = None →
  formatStdout env path f w
  = (Done (Some (PathError "open" path "no such file or directory")),
     log_event (EvOpen path false) w).
Proof.
  intros Hf. unfold formatStdout, os_Open.
  by rewrite (bind_done _ _ _ _ _ (os_OpenFile_missing path false w Hf)).
Qed.

(** X5: a formatter without commands spawns nothing; [formatWrite] then
    leaves the file empty (the empty result replaces its bytes), and
    [formatStdout] prints nothing. *)
Theorem format_with_empty_chain env path f w A :
  Commands f = [] →
  files w !! path = Some A →
  (formatWrite env path f w
   = (Done None,
      mkWorld (<[path := []]> (files w)) (tree w) (stdin w) (stdout w)
        (trace w ++ [EvOpen path true; EvTruncate path; EvSeek path])))
  ∧ formatStdout env path f w = (Done None, log_event (EvOpen path false) w).
Proof.
  intros Hc Hf. rewrite (formatWrite_eq env path f w A Hf).
  rewrite (formatStdout_eq env path f w A Hf). rewrite Hc. simpl.
  unfold written, printed, log_event. simpl. by rewrite app_nil_r.
Qed.

Lemma format_with_empty_chain_witness :
  (formatWrite (demo_env true) "a.py" (Formatter [] [] []) demo_world
   = (Done None,
      mkWorld (<["a.py" := []]> (files demo_world)) (tree demo_world)
        (stdin demo_world) (stdout demo_world)
        (trace demo_world ++ [EvOpen "a.py" true; EvTruncate "a.py"; EvSeek "a.py"])))
  ∧ formatStdout (demo_env true) "a.py" (Formatter [] [] []) demo_world
    = (Done None, log_event (EvOpen "a.py" false) demo_world).
Proof.
  apply (format_with_empty_chain (demo_env true) "a.py" (Formatter [] [] [])
           demo_world demo_input).
  - reflexivity.
  - vm_compute. reflexivity.
Defined.

(** X6: [formatStdout] on a file holding [A] appends to standard output
    exactly what the chain produces from [A] and returns nil; when a stage
    fails it returns that stage's error and standard output is as before. *)
Theorem formatStdout_prints env path f w A :
  files w !! path = Some A →
  match chain_output env (Commands f) A with
  | RunOk B =>
      formatStdout env path f w = (Done None, printed path (Commands f) B w)
      ∧ stdout (formatStdout env path f w).2 = stdout w ++ B
  | RunErr e =>
      (formatStdout env path f w).1 = Done (Some e)
      ∧ stdout (formatStdout env path f w).2 = stdout w
  | RunPanic =>
      (formatStdout env path f w).1 = Abort (Panic index_out_of_range)
      ∧ stdout (formatStdout env path f w).2 = stdout w
  end.
Proof.
  intros Hf. rewrite (formatStdout_eq env path f w A Hf).
  by destruct (chain_output env (Commands f) A).
Qed.

Lemma formatStdout_prints_witness :
  (formatStdout (demo_env false) "a.py" fmt_python demo_world
   = (Done None, printed "a.py" (Commands fmt_python)
                   (list_byte_of_string "x=1<autopep8><isort>") demo_world)
   ∧ stdout (formatStdout (demo_env false) "a.py" fmt_python demo_world).2
     = stdout demo_world ++ list_byte_of_string "x=1<autopep8><isort>")
  ∧ ((formatStdout (demo_env false) "a.py" fmt_failing demo_world).1
     = Done (Some (ExitError 1))
     ∧ stdout (formatStdout (demo_env false) "a.py" fmt_failing demo_world).2
       = stdout demo_world).
Proof.
  split.
  - apply (formatStdout_prints (demo_env false) "a.py" fmt_python demo_world demo_input).
    vm_compute. reflexivity.
  - apply (formatStdout_prints (demo_env false) "a.py" fmt_failing demo_world demo_input).
    vm_compute. reflexivity.
Defined.

(** X7: whatever the outcome (missing file, failing stage, panic, success),
    [formatWrite] changes the bytes of no file but the one it is given, and
    neither reads standard input nor writes to standard output. *)
Theorem formatWrite_frame env path f w other :
  other ≠ path →
  files (formatWrite env path f w).2 !! other = files w !! other
  ∧ stdout (formatWrite env path f w).2 = stdout w
  ∧ stdin (formatWrite env path f w).2 = stdin w.
Proof.
  intros Hne. destruct (files w !! path) as [A|] eqn:Hf.
  - rewrite (formatWrite_eq env path f w A Hf).
    destruct (chain_output env (Commands f) A); simpl; [|done|done].
    by rewrite lookup_insert_ne.
  - by rewrite (formatWrite_missing env path f w Hf).
Qed.

Lemma formatWrite_frame_witness :
  files (formatWrite (demo_env true) "a.py" fmt_python demo_world).2 !! "b.json"
  = files demo_world !! "b.json"
  ∧ stdout (formatWrite (demo_env true) "a.py" fmt_python demo_world).2
    = stdout demo_world
  ∧ stdin (formatWrite (demo_env true) "a.py" fmt_python demo_world).2
    = stdin demo_world.
Proof.
  apply (formatWrite_frame (demo_env true) "a.py" fmt_python demo_world "b.json").
  discriminate.
Defined.

(** X8: a path with a registered extension that names no file ends the
    program: [formatFile] calls [log.Fatalln] with the error of the open,
    and no command is spawned, with either operation. *)
Theorem formatFile_missing_file env f ext pre w :
  f ∈ formatters → ext ∈ Extensions f →
  files w !! (pre +:+ ext) = None →
  formatFile (pre +:+ ext) (formatWrite env) w
  = (Abort (Fatal (PathError "open" (pre +:+ ext) "no such file or directory")),
     log_event (EvOpen (pre +:+ ext) true) w)
  ∧ formatFile (pre +:+ ext) (formatStdout env) w
    = (Abort (Fatal (PathError "open" (pre +:+ ext) "no such file or directory")),
       log_event (EvOpen (pre +:+ ext) false) w).
Proof.
  intros Hf He Hfile. unfold formatFile.
  rewrite (formatterForPath_registered f ext pre Hf He).
  rewrite (bind_done _ _ _ _ _ (formatWrite_missing env _ f w Hfile)).
  by rewrite (bind_done _ _ _ _ _ (formatStdout_missing env _ f w Hfile)).
Qed.

Lemma formatFile_missing_file_witness :
  formatFile ("gone" +:+ ".go") (formatWrite (demo_env true)) demo_world
  = (Abort (Fatal (PathError "open" ("gone" +:+ ".go") "no such file or directory")),
     log_event (EvOpen ("gone" +:+ ".go") true) demo_world)
  ∧ formatFile ("gone" +:+ ".go") (formatStdout (demo_env true)) demo_world
    = (Abort (Fatal (PathError "open" ("gone" +:+ ".go") "no such file or directory")),
       log_event (EvOpen ("gone" +:+ ".go") false) demo_world).
Proof.
  apply (formatFile_missing_file (demo_env true) fmt_go ".go" "gone" demo_world).
  - apply (bool_decide_unpack _). vm_compute. reflexivity.
  - apply (bool_decide_unpack _). vm_compute. reflexivity.
  - vm_compute. reflexivity.
Defined.

(** ** Standard input *)

Lemma formatStdin_eq env f w :
  f ∈ formatters → emacs env ∈ EmacsMajorModes f →
  formatStdin env w =
  match compose env (Commands f) (stdin w) with
  | RunOk B =>
      (Done (),
       mkWorld (files w) (tree w) [] (stdout w ++ B)
         (trace w ++ map EvSpawn (Commands f)))
  | RunErr e =>
      (Abort (Fatal e),
       log_all (map EvSpawn (executed env (Commands f) (stdin w))) (set_stdin [] w))
  | RunPanic =>
      (Abort (Panic index_out_of_range),
       log_all (map EvSpawn (executed env (Commands f) (stdin w))) (set_stdin [] w))
  end.
Proof.
  intros Hf Hm. unfold formatStdin.
  rewrite (formatterForEmacs_registered f _ Hf Hm).
  assert (ReadAll Stdin w = ((Stdin, stdin w), set_stdin [] w)) as Hread by done.
  pose proof (formatChain_eq env Stdout Stdin _ (Commands f) w _ _ Hread) as Hchain.
  destruct (registered_chain f Hf) as (name & args & chain & Hc).
  rewrite Hc in *.
  destruct (compose env ((name :: args) :: chain) (stdin w)) as [B|e|].
  - rewrite deliver_Stdout in Hchain. by rewrite (bind_done _ _ _ _ _ Hchain).
  - by rewrite (bind_done _ _ _ _ _ Hchain).
  - by rewrite (bind_abort _ _ _ _ _ Hchain).
Qed.

(** X9: with the flag naming a registered mode, [formatStdin] feeds all of
    standard input to the formatter's chain: when the chain succeeds with
    [B], exactly [B] is appended to standard output and no file changes;
    when a stage fails with [e], the program ends through [log.Fatalln e]
    and standard output is as before. *)
Theorem formatStdin_formats env f w :
  f ∈ formatters → emacs env ∈ EmacsMajorModes f →
  match compose env (Commands f) (stdin w) with
  | RunOk B =>
      (formatStdin env w).1 = Done ()
      ∧ stdout (formatStdin env w).2 = stdout w ++ B
      ∧ stdin (formatStdin env w).2 = []
      ∧ files (formatStdin env w).2 = files w
      ∧ trace (formatStdin env w).2 = trace w ++ map EvSpawn (Commands f)
  | RunErr e =>
      (formatStdin env w).1 = Abort (Fatal e)
      ∧ stdout (formatStdin env w).2 = stdout w
      ∧ files (formatStdin env w).2 = files w
  | RunPanic => False
  end.
Proof.
  intros Hf Hm. rewrite (formatStdin_eq env f w Hf Hm).
  destruct (compose env (Commands f) (stdin w)) as [B|e|] eqn:Hc; [done|done|].
  (* no command of the static list lacks a program name *)
  exfalso. clear Hm. revert Hc. generalize (stdin w).
  assert (Forall (fun c => has_program c = true) (Commands f)) as Hall.
  { apply Forall_forall. intros c Hc. apply list_elem_of_In in Hf, Hc.
    pose proof formatters_check as Hk. rewrite forallb_forall in Hk.
    specialize (Hk f Hf). apply andb_prop in Hk as [_ Hk].
    rewrite forallb_forall in Hk. by apply Hk. }
  induction Hall as [|c chain Hc Hall IH]; intros input; simpl; [done|].
  destruct c as [|name args]; [done|]. unfold run.
  destruct (exec_run env (name :: args) input) as [out [e|]]; [done|]. apply IH.
Qed.

Lemma formatStdin_formats_witness :
  (formatStdin (mkEnv demo_run "python-mode" false) demo_world).1 = Done ()
  ∧ stdout (formatStdin (mkEnv demo_run "python-mode" false) demo_world).2
    = stdout demo_world ++ list_byte_of_string "input<autopep8><isort>"
  ∧ stdin (formatStdin (mkEnv demo_run "python-mode" false) demo_world).2 = []
  ∧ files (formatStdin (mkEnv demo_run "python-mode" false) demo_world).2
    = files demo_world
  ∧ trace (formatStdin (mkEnv demo_run "python-mode" false) demo_world).2
    = trace demo_world ++ map EvSpawn (Commands fmt_python).
Proof.
  apply (formatStdin_formats (mkEnv demo_run "python-mode" false) fmt_python demo_world).
  - apply (bool_decide_unpack _). vm_compute. reflexivity.
  - apply (bool_decide_unpack _). vm_compute. reflexivity.
Defined.

(** X10: on the single argument [-], the two revisions of [main] do the
    same, whatever the mode flag, the programs and the world: the older
    one returns the error of [formatStdin] and logs it fatally in [main],
    the newer one logs it fatally in [formatStdin]. *)
Theorem main_stdin_revisions_agree env w :
  Part001.main env ["-"] w = main env ["-"] w.
Proof.
  unfold Part001.main, main, Part001.formatStdin, formatStdin. simpl.
  destruct (formatterForEmacs (emacs env)) as [f|]; [|done].
  unfold bind.
  destruct (formatChain env Stdout Stdin (Commands f) w) as [[[[d s] [e|]]|x] w']; done.
Qed.

(** ** The entry point, end to end *)

Lemma for_range_app {A} (l1 l2 : list A) body w :
  for_range (l1 ++ l2) body w =
  match for_range l1 body w with
  | (Done _, w') => for_range l2 body w'
  | (Abort x, w') => (Abort x, w')
  end.
Proof.
  revert w. induction l1 as [|a l1 IH]; intros w; simpl; [done|].
  unfold bind. destruct (body a w) as [[[]|x] w']; [apply IH|done].
Qed.

Lemma dispatch_file op path f w :
  FileIsDir path w = (Done false, w) →
  formatterForPath path = Some f →
  dispatch op path w =
  match op path f w with
  | (Done None, w') => (Done (), w')
  | (Done (Some e), w') => (Abort (Fatal e), w')
  | (Abort x, w') => (Abort x, w')
  end.
Proof.
  intros Hdir Hf. unfold dispatch. rewrite (bind_done _ _ _ _ _ Hdir).
  unfold formatFile. rewrite Hf. unfold bind.
  by destruct (op path f w) as [[[e|]|x] w'].
Qed.

(** X11: [main] on one existing regular file with a registered extension.
    When the chain succeeds with [B]: under [-write] the file holds [B]
    and standard output is untouched; without it [B] is appended to
    standard output and no file changes. When a stage fails with [e], the
    program ends through [log.Fatalln e] with every file as before. *)
Theorem main_formats_one_file env f ext pre w A :
  f ∈ formatters → ext ∈ Extensions f →
  FileIsDir (pre +:+ ext) w = (Done false, w) →
  files w !! (pre +:+ ext) = Some A →
  main env [pre +:+ ext] w =
  match chain_output env (Commands f) A with
  | RunOk B =>
      (Done (),
       if write env then written (pre +:+ ext) (Commands f) B w
       else printed (pre +:+ ext) (Commands f) B w)
  | RunErr e =>
      (Abort (Fatal e),
       log_all (EvOpen (pre +:+ ext) (write env)
                  :: map EvSpawn (executed env (Commands f) A)) w)
  | RunPanic =>
      (Abort (Panic index_out_of_range),
       log_all (EvOpen (pre +:+ ext) (write env)
                  :: map EvSpawn (executed env (Commands f) A)) w)
  end.
Proof.
  intros Hf He Hdir Hfile.
  pose proof (formatterForPath_registered f ext pre Hf He) as Hfmt.
  rewrite main_dispatches_every_path; [|done|].
  2:{ intros [= Hdash]. rewrite Hdash in Hfmt. vm_compute in Hfmt. done. }
  simpl. unfold bind at 1.
  rewrite (dispatch_file _ _ f w Hdir Hfmt).
  destruct (write env).
  - rewrite (formatWrite_eq env _ f w A Hfile).
    by destruct (chain_output env (Commands f) A).
  - rewrite (formatStdout_eq env _ f w A Hfile).
    by destruct (chain_output env (Commands f) A).
Qed.

Lemma main_formats_one_file_witness :
  main (demo_env true) ["a" +:+ ".py"] demo_world
  = (Done (), written ("a" +:+ ".py") (Commands fmt_python)
                (list_byte_of_string "x=1<autopep8><isort>") demo_world).
Proof.
  apply (main_formats_one_file (demo_env true) fmt_python ".py" "a" demo_world demo_input).
  - apply (bool_decide_unpack _). vm_compute. reflexivity.
  - apply (bool_decide_unpack _). vm_compute. reflexivity.
  - vm_compute. reflexivity.
  - vm_compute. reflexivity.
Defined.

(** X12: [main] stops at the first fatal error: when the paths before
    [a] are dispatched normally and the dispatch of [a] ends the program,
    [main] ends there, in the world that dispatch left; the paths after
    [a] are never dispatched. *)
Theorem main_halts_at_first_fatal env pre a post w w1 x w2 :
  pre ++ a :: post ≠ ["-"] →
  for_range pre (dispatch (selected_op env)) w = (Done (), w1) →
  dispatch (selected_op env) a w1 = (Abort x, w2) →
  main env (pre ++ a :: post) w = (Abort x, w2).
Proof.
  intros Hdash Hpre Ha.
  rewrite main_dispatches_every_path; [|by destruct pre|done].
  fold (selected_op env). rewrite for_range_app, Hpre. simpl.
  unfold bind. by rewrite Ha.
Qed.

Lemma main_halts_at_first_fatal_witness :
  ∃ w2,
    main (demo_env true) (["b.json"] ++ "gone.go" :: ["a.py"]) demo_world
    = (Abort (Fatal (PathError "open" "gone.go" "no such file or directory")), w2)
    ∧ files w2 !! "a.py" = Some demo_input
    ∧ files w2 !! "b.json" = Some (list_byte_of_string "{}<jsonlint>").
Proof.
  eexists. split.
  - eapply (main_halts_at_first_fatal (demo_env true) ["b.json"] "gone.go" ["a.py"]
              demo_world).
    + discriminate.
    + vm_compute. reflexivity.
    + vm_compute. reflexivity.
  - vm_compute. split; reflexivity.
Defined.

(** ** The directory walk *)








(** X15: the argument [-] means standard input only when it is the single
    argument. Followed by other arguments it is taken as a path, and (not
    being a directory) it is skipped, having no extension: standard input
    is not read and [main] goes on with the other arguments. *)
Theorem main_dash_among_paths env b rest w :
  FileIsDir "-" w = (Done false, w) →
  main env ("-" :: b :: rest) w
  = for_range (b :: rest) (dispatch (selected_op env)) w.
Proof.
  intros Hdir. rewrite main_dispatches_every_path; [|done|done].
  fold (selected_op env). cbn [for_range]. unfold bind at 1, dispatch at 1.
  rewrite (bind_done _ _ _ _ _ Hdir). done.
Qed.

Lemma main_dash_among_paths_witness :
  main (demo_env false) ("-" :: "a.py" :: []) demo_world
  = for_range ("a.py" :: []) (dispatch (selected_op (demo_env false))) demo_world.
Proof.
  apply (main_dash_among_paths (demo_env false) "a.py" [] demo_world).
  vm_compute. reflexivity.
Defined.
